(** * DataSnap history subsystem: snapshot store, ledger and revert route

    A shallow embedding of [app/backend/history_tracker.py] (class
    [HistoryTracker]) and of the [/history/revert] handler of
    [app/backend/api/history_routes.py].

    Python objects that are shared and mutated in place (pandas DataFrames)
    live in an explicit heap of objects addressed by identity, so that
    "stores a copy" and "returns the stored object itself" are different
    things in the model, as they are in the program.  The two sources of
    outside input of [log_change], [uuid.uuid4()] and [datetime.now()], are
    oracles indexed by the number of calls made so far. *)

From stdpp Require Import gmap strings list fin_maps pretty.

Open Scope string_scope.
Open Scope list_scope.
Open Scope nat_scope.

(** ** Tables *)

(** A cell of a table.  Floats and timestamps are left out: no property below
    looks inside a cell. *)
Inductive cell :=
  | CNull
  | CInt (z : Z)
  | CBool (b : bool)
  | CStr (s : string).

(** The content of a pandas DataFrame: its column labels and its rows. *)
Record DataFrame := mkDF {
  columns : list string;
  rows : list (list cell)
}.

(** [len(df)] and [len(df.columns)]. *)
Definition n_rows (df : DataFrame) : nat := length (rows df).
Definition n_cols (df : DataFrame) : nat := length (columns df).
Definition shape (df : DataFrame) : nat * nat := (n_rows df, n_cols df).

#[global] Instance cell_eq_dec : EqDecision cell.
Proof. solve_decision. Defined.

#[global] Instance DataFrame_eq_dec : EqDecision DataFrame.
Proof. solve_decision. Defined.

(** ** The object heap and the outside world *)

(** The identity of a DataFrame object. *)
Definition addr := nat.

(** The world a call runs in: the DataFrame objects allocated so far (the
    object with identity [a] is the [a]-th one; objects are never reclaimed
    in the model), and how many times [uuid.uuid4()] and [datetime.now()] have
    been called. *)
Record World := mkWorld {
  heap : list DataFrame;
  uuid_draws : nat;
  clock_reads : nat
}.

Definition with_heap (h : list DataFrame) (w : World) : World :=
  {| heap := h; uuid_draws := uuid_draws w; clock_reads := clock_reads w |}.

(** In-place mutation of the object [a] (for instance
    [df.at[row, col] = v] in the [/edit-cell] handler). *)
Definition mutate (a : addr) (df : DataFrame) (w : World) : World :=
  with_heap (<[a := df]> (heap w)) w.

(** A collaborator creates a new DataFrame object (the result of a cleaning
    or transform operation, or an upload). *)
Definition new_object (df : DataFrame) (w : World) : addr * World :=
  (length (heap w), with_heap (heap w ++ [df]) w).

(** ** Exceptions and the state-and-exception monad *)

Inductive exn :=
  | KeyError (k : string)
  (** Not a Python exception: a reference to an object that was never
      allocated.  Python references cannot dangle; the model says so by
      failing here, and the well-formedness of states excludes it. *)
  | DanglingRef (a : addr)
  (** [x.attribute] on an object that has no such attribute. *)
  | AttributeError (attribute : string).

Inductive result (A : Type) :=
  | Ok (x : A)
  | Raise (e : exn).
Arguments Ok {A} x.
Arguments Raise {A} e.

Definition M (A : Type) : Type := World → result (A * World).

#[global] Instance M_ret : MRet M := λ A x w, Ok (x, w).
#[global] Instance M_bind : MBind M := λ A B f m w,
  match m w with
  | Ok (x, w') => f x w'
  | Raise e => Raise e
  end.

(** A computation that only reads, and may raise. *)
Definition lift {A} (r : result A) : M A := λ w,
  match r with
  | Ok x => Ok (x, w)
  | Raise e => Raise e
  end.

(** ** Python values that reach the tracker from a request *)

Inductive pyval :=
  | PNone
  | PBool (b : bool)
  | PInt (z : Z)
  | PStr (s : string).

#[global] Instance pyval_eq_dec : EqDecision pyval.
Proof. solve_decision. Defined.

(** Truth value of a Python object, as tested by [if not x]. *)
Definition truthy (v : pyval) : bool :=
  match v with
  | PNone => false
  | PBool b => b
  | PInt z => negb (Z.eqb z 0)
  | PStr s => negb (String.eqb s EmptyString)
  end.

(** ** Ledger entries *)

(** An entry of the ledger is a Python dict with string keys; [log_change]
    fills in string values only. *)
Abbreviation entry := (gmap string string).

(** [d[k]] *)
Definition getitem (d : entry) (k : string) : result string :=
  match d !! k with
  | Some v => Ok v
  | None => Raise (KeyError k)
  end.

(** ** HistoryTracker *)

(** [self.history] and [self.snapshots]; a snapshot is held by reference to a
    DataFrame object. *)
Record HistoryTracker := mkTracker {
  history : list entry;
  snapshots : gmap string addr
}.

(** [HistoryTracker.__init__] *)
Definition init : HistoryTracker :=
  {| history := []; snapshots := ∅ |}.

Section Tracker.

(** [uuid_str k] is [str(uuid.uuid4())] at the [k]-th call of [uuid4], and
    [now_iso k] is [datetime.now().isoformat()] at the [k]-th reading of
    the clock. *)
Variable uuid_str : nat → string.
Variable now_iso : nat → string.

Definition uuid4 : M string := λ w,
  Ok (uuid_str (uuid_draws w),
      {| heap := heap w; uuid_draws := S (uuid_draws w);
         clock_reads := clock_reads w |}).

Definition now : M string := λ w,
  Ok (now_iso (clock_reads w),
      {| heap := heap w; uuid_draws := uuid_draws w;
         clock_reads := S (clock_reads w) |}).

(** [df.copy()]: a new object with the same content. *)
Definition df_copy (a : addr) : M addr := λ w,
  match heap w !! a with
  | Some df => Ok (new_object df w)
  | None => Raise (DanglingRef a)
  end.

(** [log_change(self, action, description, data_snapshot=None)].  The new
    state of [self] is returned next to the entry id. *)
Definition log_change (self : HistoryTracker) (action description : string)
    (data_snapshot : option addr) : M (string * HistoryTracker) :=
  id ← uuid4;
  timestamp ← now;
  let entry : entry :=
    {[ "id" := id; "timestamp" := timestamp;
       "action" := action; "description" := description ]} in
  match data_snapshot with
  | Some df =>
      snapshot_id ← uuid4;
      c ← df_copy df;
      let entry := <["snapshot_id" := snapshot_id]> entry in
      mret (id, {| history := history self ++ [entry];
                   snapshots := <[snapshot_id := c]> (snapshots self) |})
  | None =>
      mret (id, {| history := history self ++ [entry];
                   snapshots := snapshots self |})
  end.

(** [get_history(self)]: the list itself is returned; the model gives its
    value. *)
Definition get_history (self : HistoryTracker) : list entry := history self.

(** [get_snapshot(self, snapshot_id)]: [dict.get], the stored object
    itself. *)
Definition get_snapshot (self : HistoryTracker) (snapshot_id : string)
    : option addr :=
  snapshots self !! snapshot_id.

(** The [for] loop of [revert_to_version]: the first entry whose ['id']
    equals [history_id]; [entry['id']] raises on an entry without that
    key. *)
Fixpoint find_entry (hist : list entry) (history_id : pyval)
    : result (option entry) :=
  match hist with
  | [] => Ok None
  | e :: rest =>
      match getitem e "id" with
      | Ok i =>
          if decide (PStr i = history_id) then Ok (Some e)
          else find_entry rest history_id
      | Raise x => Raise x
      end
  end.

(** [revert_to_version(self, history_id)].  [self] is not assigned to. *)
Definition revert_to_version (self : HistoryTracker) (history_id : pyval)
    : M (option addr) :=
  target_entry ← lift (find_entry (history self) history_id);
  match target_entry with
  | None => mret None
  | Some e =>
      (* [not target_entry or 'snapshot_id' not in target_entry] *)
      if bool_decide (e = ∅) || bool_decide (e !! "snapshot_id" = None)
      then mret None
      else
        sid ← lift (getitem e "snapshot_id");
        match get_snapshot self sid with
        | Some snapshot => c ← df_copy snapshot; mret (Some c)
        | None => mret None
        end
  end.

(** [clear_history(self)] *)
Definition clear_history (self : HistoryTracker) : HistoryTracker :=
  {| history := []; snapshots := ∅ |}.

(** [export_history(self)]: the dict [{'history': self.history}], given by
    the value under its one key. *)
Definition export_history (self : HistoryTracker) : list entry :=
  history self.

(** [import_history(self, history_data)], for a [history_data] whose
    ['history'] (when present) is a list of entries:
    [history_data.get('history', [])]. *)
Definition import_history (self : HistoryTracker)
    (history_data : option (list entry)) : HistoryTracker :=
  {| history := default [] history_data; snapshots := ∅ |}.

(** ** The [/history/revert] handler *)

(** [current_app.config], as far as the handler reads and writes it. *)
Record AppConfig := mkConfig {
  MAIN_DF : option addr;
  HISTORY_TRACKER : option HistoryTracker
}.

(** What [jsonify(...)] with an optional status code returns: the status
    code and the JSON object. *)
Record Response := mkResponse {
  status_code : nat;
  body : gmap string string
}.

Definition jsonify_error (message : string) (code : nat) : Response :=
  {| status_code := code;
     body := {[ "status" := "error"; "message" := message ]} |}.

Definition jsonify_success (message : string) : Response :=
  {| status_code := 200;
     body := {[ "status" := "success"; "message" := message ]} |}.

(** [revert_to_history_version()], for a request whose JSON body is the
    object [data]. *)
Definition revert_to_history_version (config : AppConfig)
    (data : gmap string pyval) : M (Response * AppConfig) :=
  match HISTORY_TRACKER config, MAIN_DF config with
  | Some tracker, Some _ =>
      let history_id := default PNone (data !! "id") in
      if negb (truthy history_id)
      then mret (jsonify_error "History ID is required." 400, config)
      else
        snapshot_df ← revert_to_version tracker history_id;
        match snapshot_df with
        | Some df =>
            '(_, tracker') ← log_change tracker "Revert"
                "Reverted to state from an earlier action." (Some df);
            mret (jsonify_success
                    "Successfully reverted to the selected state.",
                  {| MAIN_DF := Some df;
                     HISTORY_TRACKER := Some tracker' |})
        | None =>
            mret (jsonify_error "History snapshot not found." 404, config)
        end
  | _, _ =>
      mret (jsonify_error "History or data not available." 404, config)
  end.

End Tracker.

(** ** Reachable states *)

(** One call on the tracker, or one action of the rest of the program on
    the heap and the oracles.  [get_history], [get_snapshot] and
    [export_history] change nothing and need no step.  With
    [imports = false], [import_history] is not called. *)
Inductive step (uuid_str now_iso : nat → string) (imports : bool)
    : HistoryTracker * World → HistoryTracker * World → Prop :=
  | step_log_change tr w action description data id tr' w' :
      log_change uuid_str now_iso tr action description data w
        = Ok ((id, tr'), w') →
      step uuid_str now_iso imports (tr, w) (tr', w')
  | step_revert tr w history_id r w' :
      revert_to_version tr history_id w = Ok (r, w') →
      step uuid_str now_iso imports (tr, w) (tr, w')
  | step_clear tr w :
      step uuid_str now_iso imports (tr, w) (clear_history tr, w)
  | step_import tr w history_data :
      imports = true →
      step uuid_str now_iso imports (tr, w) (import_history tr history_data, w)
  | step_mutate tr w a df :
      step uuid_str now_iso imports (tr, w) (tr, mutate a df w)
  | step_new_object tr w df :
      step uuid_str now_iso imports (tr, w) (tr, (new_object df w).2)
  | step_uuid4 tr w u w' :
      uuid4 uuid_str w = Ok (u, w') →
      step uuid_str now_iso imports (tr, w) (tr, w')
  | step_now tr w t w' :
      now now_iso w = Ok (t, w') →
      step uuid_str now_iso imports (tr, w) (tr, w').

(** The states a tracker created by [HistoryTracker()] can be in. *)
Inductive reachable (uuid_str now_iso : nat → string) (imports : bool)
    : HistoryTracker → World → Prop :=
  | reachable_init w : reachable uuid_str now_iso imports init w
  | reachable_step tr w tr' w' :
      reachable uuid_str now_iso imports tr w →
      step uuid_str now_iso imports (tr, w) (tr', w') →
      reachable uuid_str now_iso imports tr' w'.

(** What may happen after an entry was logged, in the sense of "later
    changes and mutations of the live table": more [log_change] calls, reverts,
    new tables, and in-place mutation of any table that is not one of the
    objects held by the snapshot store. *)
Inductive later_step (uuid_str now_iso : nat → string)
    : HistoryTracker * World → HistoryTracker * World → Prop :=
  | later_log_change tr w action description data id tr' w' :
      log_change uuid_str now_iso tr action description data w
        = Ok ((id, tr'), w') →
      later_step uuid_str now_iso (tr, w) (tr', w')
  | later_revert tr w history_id r w' :
      revert_to_version tr history_id w = Ok (r, w') →
      later_step uuid_str now_iso (tr, w) (tr, w')
  | later_mutate tr w a df :
      (∀ sid, snapshots tr !! sid ≠ Some a) →
      later_step uuid_str now_iso (tr, w) (tr, mutate a df w)
  | later_new_object tr w df :
      later_step uuid_str now_iso (tr, w) (tr, (new_object df w).2).

(** ** State predicates *)

(** The table content a reference denotes. *)
Definition content (w : World) (a : addr) : option DataFrame := heap w !! a.

(** The snapshot id [sid] resolves to exactly one snapshot: the store maps
    it to one object, and that object exists. *)
Definition resolves (tr : HistoryTracker) (w : World) (sid : string) : Prop :=
  ∃ a df, get_snapshot tr sid = Some a ∧ content w a = Some df ∧
          ∀ a', get_snapshot tr sid = Some a' → a' = a.

(** Every snapshot id referenced by an entry of the ledger resolves. *)
Definition ledger_resolves (tr : HistoryTracker) (w : World) : Prop :=
  ∀ e sid, e ∈ history tr → e !! "snapshot_id" = Some sid → resolves tr w sid.

(** The ids of the entries, for entries that have one. *)
Definition entry_ids (hist : list entry) : list string :=
  omap (λ e : entry, e !! "id") hist.

(** Every entry of the ledger carries an id that [uuid4] produced earlier.
    True of every ledger built by [log_change], and of a ledger imported
    from an earlier export. *)
Definition ledger_ids_drawn (uuid_str : nat → string)
    (tr : HistoryTracker) (w : World) : Prop :=
  ∀ e, e ∈ history tr →
    ∃ j, j < uuid_draws w ∧ e !! "id" = Some (uuid_str j).

(** The entry id [history_id] resolves to a snapshot: the scan of the ledger
    stops at an entry whose snapshot id resolves to the content [df]. *)
Definition id_resolves (tr : HistoryTracker) (w : World)
    (history_id : pyval) (df : DataFrame) : Prop :=
  ∃ e sid a,
    find_entry (history tr) history_id = Ok (Some e) ∧
    e !! "snapshot_id" = Some sid ∧
    get_snapshot tr sid = Some a ∧ content w a = Some df.

(** The entry id [history_id] still leads to a snapshot of content [df]
    whose snapshot id is one [uuid4] has already produced. *)
Definition keeps_snapshot (uuid_str : nat → string) (tr : HistoryTracker)
    (w : World) (history_id : pyval) (df : DataFrame) : Prop :=
  ∃ e j a,
    find_entry (history tr) history_id = Ok (Some e) ∧
    e !! "snapshot_id" = Some (uuid_str j) ∧ j < uuid_draws w ∧
    get_snapshot tr (uuid_str j) = Some a ∧ content w a = Some df.

(** The id that the next call of [uuid4] returns is new to the ledger: the
    scan for it runs through the whole ledger (every entry has an id) and
    finds no entry. *)
Definition next_id_is_new (uuid_str : nat → string) (tr : HistoryTracker)
    (w : World) : Prop :=
  find_entry (history tr) (PStr (uuid_str (uuid_draws w))) = Ok None.

(** The entry id [history_id] leads to no snapshot: the scan finds no
    entry, or an entry without [snapshot_id], or an entry whose snapshot id
    the store does not hold. *)
Definition id_unresolved (tr : HistoryTracker) (history_id : pyval) : Prop :=
  find_entry (history tr) history_id = Ok None ∨
  ∃ e, find_entry (history tr) history_id = Ok (Some e) ∧
    (e !! "snapshot_id" = None ∨
     ∃ sid, e !! "snapshot_id" = Some sid ∧ get_snapshot tr sid = None).

(** Every entry has an ['id'] key, and every object the store refers to
    exists. *)
Definition well_formed (tr : HistoryTracker) (w : World) : Prop :=
  (∀ e, e ∈ history tr → is_Some (e !! "id")) ∧
  (∀ sid a, snapshots tr !! sid = Some a → is_Some (heap w !! a)).

(** A sequence of [log_change] calls, given by their arguments; the ids
    returned, in call order, and the tracker at the end. *)
Fixpoint log_changes (uuid_str now_iso : nat → string)
    (calls : list (string * string * option addr)) (tr : HistoryTracker)
    : M (list string * HistoryTracker) :=
  match calls with
  | [] => mret ([], tr)
  | (action, description, data) :: rest =>
      '(id, tr1) ← log_change uuid_str now_iso tr action description data;
      '(ids, tr2) ← log_changes uuid_str now_iso rest tr1;
      mret (id :: ids, tr2)
  end.

(** ** Sample data, used to run the definitions *)

Definition sample_uuid (k : nat) : string := "u" +:+ pretty k.
Definition sample_now (k : nat) : string := "t" +:+ pretty k.

Definition table_2x2 : DataFrame :=
  mkDF ["a"; "b"] [[CInt 1; CInt 2]; [CInt 3; CInt 4]].
Definition table_1x2 : DataFrame :=
  mkDF ["a"; "b"] [[CInt 1; CInt 2]].

Definition sample_world : World := mkWorld [table_2x2] 0 0.

(** The tracker and the world after one [log_change] that stored the table
    of [sample_world]. *)
Definition sample_logged : HistoryTracker * World :=
  match log_change sample_uuid sample_now init "Session Load"
          "Loaded session file 'a.json'" (Some 0) sample_world with
  | Ok ((_, tr), w) => (tr, w)
  | Raise _ => (init, sample_world)
  end.

(** The configuration of an application whose current table is the table
    that was logged. *)
Definition sample_config : AppConfig :=
  {| MAIN_DF := Some 0; HISTORY_TRACKER := Some sample_logged.1 |}.

(** The same with a table of one row. *)
Definition small_world : World := mkWorld [table_1x2] 0 0.

Definition small_logged : HistoryTracker * World :=
  match log_change sample_uuid sample_now init "Session Load"
          "Loaded session file 'b.json'" (Some 0) small_world with
  | Ok ((_, tr), w) => (tr, w)
  | Raise _ => (init, small_world)
  end.

Definition small_config : AppConfig :=
  {| MAIN_DF := Some 0; HISTORY_TRACKER := Some small_logged.1 |}.

(** A request [{"id": history_id}] to the revert handler; an exception that
    escapes the handler becomes a response with status 500. *)
Definition post_revert (config : AppConfig) (history_id : string) (w : World)
    : Response * AppConfig * World :=
  match revert_to_history_version sample_uuid sample_now config
          {[ "id" := PStr history_id ]} w with
  | Ok r => r
  | Raise _ => (jsonify_error "Internal Server Error" 500, config, w)
  end.

Definition sample_reverted : Response * AppConfig * World :=
  post_revert sample_config "u0" sample_logged.2.

Definition small_reverted : Response * AppConfig * World :=
  post_revert small_config "u0" small_logged.2.

(** An entry as [import_history] may bring it in: it names a snapshot. *)
Definition imported_entry : entry :=
  {[ "id" := "e1"; "timestamp" := "t"; "action" := "Upload";
     "description" := "d"; "snapshot_id" := "s1" ]}.

Definition sample_imported : HistoryTracker :=
  import_history init (Some [imported_entry]).

(** ** The [GET /history] handler *)

Module history_routes.

(** The JSON object the handler returns, with its status code. *)
Record HistoryResponse := mkHistoryResponse {
  history_status_code : nat;
  history_status : string;
  history_items : list entry
}.

(** [get_history()] of [api/history_routes.py]: the ledger, newest entry
    first ([tracker.get_history()[::-1]]), or an empty list when no tracker
    is configured. *)
Definition get_history (config : AppConfig) : HistoryResponse :=
  match HISTORY_TRACKER config with
  | None =>
      {| history_status_code := 200; history_status := "success";
         history_items := [] |}
  | Some tracker =>
      {| history_status_code := 200; history_status := "success";
         history_items := reverse (get_history tracker) |}
  end.

End history_routes.

(** ** The end of the [/session/load] handler *)

(** [try: m except Exception: handler].  The handler runs in the world the
    [try] started in. *)
Definition catch {A} (m : M A) (handler : exn → M A) : M A := λ w,
  match m w with
  | Ok r => Ok r
  | Raise e => handler e w
  end.

Module session_routes.

(** The success response of the handler. *)
Record LoadResponse := mkLoadResponse {
  load_status_code : nat;
  load_status : string;
  load_message : string;
  load_filename : string;
  load_rows : nat;
  load_columns : nat
}.

(** [session_data.get("filename") or "Loaded Session"], for a field that is
    a string, or absent, or [null]. *)
Definition filename_or_default (field : option string) : string :=
  match field with
  | Some s => if String.eqb s EmptyString then "Loaded Session" else s
  | None => "Loaded Session"
  end.

(** [load_session()] from the point where the session file has been read
    and checked: [records] is the content of
    [pd.DataFrame(session_data["data"])] and [filename_field] is
    [session_data.get("filename")].  The table is installed, the tracker
    (when there is one) is cleared and logs the load, and an exception of the
    tracker is swallowed.  The third component of the result is
    [config['FILENAME']]. *)
Definition load_session (uuid_str now_iso : nat → string)
    (config : AppConfig) (filename_field : option string)
    (records : DataFrame) : M (LoadResponse * AppConfig * string) :=
  df ← (λ w, Ok (new_object records w));
  let filename := filename_or_default filename_field in
  tracker' ←
    match HISTORY_TRACKER config with
    | Some tracker =>
        let cleared := clear_history tracker in
        catch
          ('(_, logged) ← log_change uuid_str now_iso cleared "Session Load"
               ("Loaded session file '" +:+ filename +:+ "'") (Some df);
           mret (Some logged))
          (λ _, mret (Some cleared))
    | None => mret None
    end;
  mret ({| load_status_code := 200; load_status := "success";
           load_message := "Session loaded successfully";
           load_filename := filename;
           load_rows := n_rows records; load_columns := n_cols records |},
        {| MAIN_DF := Some df; HISTORY_TRACKER := tracker' |},
        filename).

End session_routes.

(** ** More state predicates *)

(** The snapshot ids the entries of a ledger carry, in ledger order. *)
Definition snapshot_ids (hist : list entry) : list string :=
  omap (λ e : entry, e !! "snapshot_id") hist.

(** Every key of the snapshot store is an id [uuid4] produced earlier. *)
Definition store_ids_drawn (uuid_str : nat → string)
    (tr : HistoryTracker) (w : World) : Prop :=
  ∀ sid a, snapshots tr !! sid = Some a →
    ∃ j, j < uuid_draws w ∧ sid = uuid_str j.

(** Ledger and store go together one to one: no two entries carry the same
    snapshot id, and the keys of the store are the snapshot ids of the
    entries. *)
Definition store_matches_ledger (tr : HistoryTracker) : Prop :=
  NoDup (snapshot_ids (history tr)) ∧
  dom (snapshots tr) = list_to_set (snapshot_ids (history tr)).

(** [w'] keeps every object of [w] as it is and may have more. *)
Definition extends (w w' : World) : Prop :=
  ∀ a df, content w a = Some df → content w' a = Some df.

(** What holds of a tracker however it was driven, short of
    [import_history]: ids come from [uuid4], stored objects exist, snapshot
    ids resolve, ledger and store match, and entry ids are pairwise
    distinct. *)
Definition tracker_invariant (uuid_str : nat → string)
    (tr : HistoryTracker) (w : World) : Prop :=
  ledger_ids_drawn uuid_str tr w ∧
  store_ids_drawn uuid_str tr w ∧
  well_formed tr w ∧
  ledger_resolves tr w ∧
  store_matches_ledger tr ∧
  NoDup (entry_ids (history tr)).

(** ** The revert handler on any JSON body *)

(** What [request.get_json()] returns: a JSON object, or another JSON value
    ([null], a list, a string, a number, a boolean), none of which has a
    [get]. *)
Inductive request_json :=
  | JsonObject (data : gmap string pyval)
  | JsonNotObject.

(** [revert_to_history_version()] on any JSON body.  The tracker and the
    table are tested first; [data.get('id')] then raises [AttributeError] on
    a body that is not an object. *)
Definition history_revert_request (uuid_str now_iso : nat → string)
    (config : AppConfig) (body : request_json) : M (Response * AppConfig) :=
  match body with
  | JsonObject data => revert_to_history_version uuid_str now_iso config data
  | JsonNotObject =>
      match HISTORY_TRACKER config, MAIN_DF config with
      | Some _, Some _ => λ _, Raise (AttributeError "get")
      | _, _ =>
          mret (jsonify_error "History or data not available." 404, config)
      end
  end.

(** ** The scan, said of the entries *)

(** The entry has an ['id'], and it is not the id looked for. *)
Definition carries_other_id (history_id : pyval) (e : entry) : Prop :=
  ∃ j, e !! "id" = Some j ∧ PStr j ≠ history_id.

(** [e] is the first entry of the ledger that carries the id, and every
    entry before it carries another id. *)
Definition first_match (hist : list entry) (history_id : pyval) (e : entry)
    : Prop :=
  ∃ l1 l2 i, hist = l1 ++ e :: l2 ∧ e !! "id" = Some i ∧
    history_id = PStr i ∧ ∀ e', e' ∈ l1 → carries_other_id history_id e'.

(** Every entry of the ledger has an ['id'], and none has the id looked
    for. *)
Definition no_match (hist : list entry) (history_id : pyval) : Prop :=
  ∀ e, e ∈ hist → carries_other_id history_id e.

(** The ledger has an entry without ['id'], and every entry before it
    carries another id than the one looked for. *)
Definition reaches_entry_without_id (hist : list entry) (history_id : pyval)
    : Prop :=
  ∃ l1 e l2, hist = l1 ++ e :: l2 ∧ e !! "id" = None ∧
    ∀ e', e' ∈ l1 → carries_other_id history_id e'.

(** The first entry that carries the id names a snapshot that the store
    holds, of content [df]. *)
Definition entry_resolves (tr : HistoryTracker) (w : World)
    (history_id : pyval) (df : DataFrame) : Prop :=
  ∃ e sid a, first_match (history tr) history_id e ∧
    e !! "snapshot_id" = Some sid ∧
    get_snapshot tr sid = Some a ∧ content w a = Some df.

(** Every entry has an id and none has the id looked for; or the first
    entry that carries it has no [snapshot_id]; or it has one that the store
    does not hold. *)
Definition entry_unresolved (tr : HistoryTracker) (history_id : pyval)
    : Prop :=
  no_match (history tr) history_id ∨
  ∃ e, first_match (history tr) history_id e ∧
    (e !! "snapshot_id" = None ∨
     ∃ sid, e !! "snapshot_id" = Some sid ∧ get_snapshot tr sid = None).

(** ** Formatting a phone number ([utils/formatting_utils.py]) *)

(** A Python [str] is a sequence of code points. *)
Abbreviation pystr := (list N).

(** ['1'], ['('], [')'] and ['-']. *)
Definition ord_1 : N := 49.
Definition ord_lparen : N := 40.
Definition ord_rparen : N := 41.
Definition ord_hyphen : N := 45.

(** [s[i:j]] for [0 <= i <= j]. *)
Definition slice (i j : nat) (s : pystr) : pystr := take (j - i) (drop i s).

(** [s.startswith(prefix)] *)
Fixpoint startswith (s prefix : pystr) : bool :=
  match prefix, s with
  | [], _ => true
  | c :: prefix', d :: s' => N.eqb c d && startswith s' prefix'
  | _ :: _, [] => false
  end.

Section Formatting.

(** The code points [\d] matches: the decimal digits of Unicode, those of
    ASCII and those of other scripts.  The table is part of Python, not of
    this repository. *)
Variable is_decimal : N → bool.

(** [re.sub(r'\D', '', s)] *)
Fixpoint strip_non_digits (s : pystr) : pystr :=
  match s with
  | [] => []
  | c :: rest =>
      if is_decimal c then c :: strip_non_digits rest
      else strip_non_digits rest
  end.

(** [_format_single_phone_number(match)], as a function of
    [match.group(0)]. *)
Definition _format_single_phone_number (group0 : pystr) : pystr :=
  let digits := strip_non_digits group0 in
  if length digits =? 10 then
    [ord_1; ord_lparen] ++ slice 0 3 digits ++ [ord_rparen] ++
    slice 3 6 digits ++ [ord_hyphen] ++ slice 6 10 digits
  else if (length digits =? 11) && startswith digits [ord_1] then
    [ord_1; ord_lparen] ++ slice 1 4 digits ++ [ord_rparen] ++
    slice 4 7 digits ++ [ord_hyphen] ++ slice 7 11 digits
  else group0.

(** The number [_format_single_phone_number] recognises in a text: ten
    digits, or eleven digits of which the first is ['1']. *)
Definition recognised (group0 : pystr) : bool :=
  (length (strip_non_digits group0) =? 10) ||
  ((length (strip_non_digits group0) =? 11) &&
   startswith (strip_non_digits group0) [ord_1]).

End Formatting.

(** A table for running the definitions: the digits of ASCII and the
    Arabic-Indic digits (U+0660 to U+0669). *)
Definition sample_is_decimal (c : N) : bool :=
  ((48 <=? c) && (c <=? 57) || (1632 <=? c) && (c <=? 1641))%N.

(** ** More sample data *)


(** Loading a session of one row into the sample application. *)
Definition sample_loaded
    : session_routes.LoadResponse * AppConfig * string * World :=
  match session_routes.load_session sample_uuid sample_now sample_config
          (Some "b.json") table_1x2 sample_logged.2 with
  | Ok r => r
  | Raise _ =>
      (session_routes.mkLoadResponse 500 "error" "" "" 0 0, sample_config,
       "", sample_logged.2)
  end.

(** * Properties *)

Section Properties.

Variable uuid_str : nat → string.
Variable now_iso : nat → string.

Ltac unfold_M :=
  unfold mbind, M_bind, mret, M_ret, lift, uuid4, now, df_copy, new_object,
    with_heap in *; simpl in *.

(** ** Equations of [log_change] *)

Lemma log_change_with_table tr action description a w df :
  heap w !! a = Some df →
  log_change uuid_str now_iso tr action description (Some a) w =
  Ok ((uuid_str (uuid_draws w),
       {| history := history tr ++
            [ <["snapshot_id" := uuid_str (S (uuid_draws w))]>
                ({[ "id" := uuid_str (uuid_draws w);
                    "timestamp" := now_iso (clock_reads w);
                    "action" := action;
                    "description" := description ]} : entry) ];
          snapshots :=
            <[uuid_str (S (uuid_draws w)) := length (heap w)]>
              (snapshots tr) |}),
      {| heap := heap w ++ [df];
         uuid_draws := S (S (uuid_draws w));
         clock_reads := S (clock_reads w) |}).
Proof.
  intros Ha. unfold log_change. unfold_M. by rewrite Ha.
Qed.

Lemma log_change_without_table tr action description w :
  log_change uuid_str now_iso tr action description None w =
  Ok ((uuid_str (uuid_draws w),
       {| history := history tr ++
            [ ({[ "id" := uuid_str (uuid_draws w);
                  "timestamp" := now_iso (clock_reads w);
                  "action" := action;
                  "description" := description ]} : entry) ];
          snapshots := snapshots tr |}),
      {| heap := heap w;
         uuid_draws := S (uuid_draws w);
         clock_reads := S (clock_reads w) |}).
Proof. reflexivity. Qed.

Lemma log_change_dangling tr action description a w :
  heap w !! a = None →
  log_change uuid_str now_iso tr action description (Some a) w =
  Raise (DanglingRef a).
Proof.
  intros Ha. unfold log_change. unfold_M. by rewrite Ha.
Qed.

(** Whatever [log_change] is given, when it returns it has appended one
    entry carrying the returned id, and the heap has only grown. *)
Lemma log_change_inv tr action description data w id tr' w' :
  log_change uuid_str now_iso tr action description data w
    = Ok ((id, tr'), w') →
  id = uuid_str (uuid_draws w) ∧
  (∃ e, history tr' = history tr ++ [e] ∧ e !! "id" = Some id ∧
        e !! "action" = Some action ∧
        e !! "description" = Some description ∧
        match data with
        | None =>
            e !! "snapshot_id" = None ∧ snapshots tr' = snapshots tr ∧
            heap w' = heap w ∧ uuid_draws w' = S (uuid_draws w)
        | Some a =>
            ∃ df, heap w !! a = Some df ∧
              e !! "snapshot_id" = Some (uuid_str (S (uuid_draws w))) ∧
              snapshots tr' =
                <[uuid_str (S (uuid_draws w)) := length (heap w)]>
                  (snapshots tr) ∧
              heap w' = heap w ++ [df] ∧
              uuid_draws w' = S (S (uuid_draws w))
        end).
Proof.
  destruct data as [a|].
  - destruct (heap w !! a) as [df|] eqn:Ha.
    + rewrite (log_change_with_table _ _ _ _ _ _ Ha).
      intros [= <- <- <-]. split; [done|]. eexists. split; [done|].
      simpl. repeat split; try done. by exists df.
    + by rewrite log_change_dangling.
  - rewrite log_change_without_table. intros [= <- <- <-].
    split; [done|]. eexists. split; [done|]. done.
Qed.

(** ** The scan of the ledger *)

Lemma find_entry_app_Some (l l' : list entry) hid e :
  find_entry l hid = Ok (Some e) →
  find_entry (l ++ l') hid = Ok (Some e).
Proof.
  induction l as [|x l IH]; simpl; [done|].
  destruct (getitem x "id") as [i|]; [|done].
  destruct (decide (PStr i = hid)); [done|]. apply IH.
Qed.

Lemma find_entry_app_None (l l' : list entry) hid :
  find_entry l hid = Ok None →
  find_entry (l ++ l') hid = find_entry l' hid.
Proof.
  induction l as [|x l IH]; simpl; [done|].
  destruct (getitem x "id") as [i|]; [|done].
  destruct (decide (PStr i = hid)); [done|]. apply IH.
Qed.

Lemma find_entry_Some_inv (l : list entry) hid e :
  find_entry l hid = Ok (Some e) →
  e ∈ l ∧ ∃ i, e !! "id" = Some i ∧ hid = PStr i.
Proof.
  induction l as [|x l IH]; simpl; [done|].
  unfold getitem. destruct (x !! "id") as [i|] eqn:Hi; [|done].
  destruct (decide (PStr i = hid)) as [<-|].
  - intros [= <-]. split; [left|]. by exists i.
  - intros H. destruct (IH H) as [? ?]. split; [by right|done].
Qed.

(** The scan finds nothing when every entry has an id and none is the one
    looked for. *)
Lemma find_entry_None (l : list entry) hid :
  (∀ e, e ∈ l → ∃ i, e !! "id" = Some i ∧ PStr i ≠ hid) →
  find_entry l hid = Ok None.
Proof.
  induction l as [|x l IH]; simpl; [done|]. intros H.
  destruct (H x) as (i & Hi & Hne); [left|].
  unfold getitem. rewrite Hi. destruct (decide (PStr i = hid)); [done|].
  apply IH. intros e He. apply H. by right.
Qed.

Lemma find_entry_None_inv (l : list entry) hid :
  find_entry l hid = Ok None →
  ∀ e, e ∈ l → ∃ i, e !! "id" = Some i ∧ PStr i ≠ hid.
Proof.
  induction l as [|x l IH]; simpl; [intros _ e He; by inversion He|].
  unfold getitem. destruct (x !! "id") as [i|] eqn:Hi; [|done].
  destruct (decide (PStr i = hid)); [done|].
  intros H e He. apply elem_of_cons in He as [->|He]; [by exists i|].
  by apply IH.
Qed.


(** ** Equations of [revert_to_version] *)

Lemma revert_to_version_found tr hid w e sid a df :
  find_entry (history tr) hid = Ok (Some e) →
  e !! "snapshot_id" = Some sid →
  get_snapshot tr sid = Some a →
  heap w !! a = Some df →
  revert_to_version tr hid w =
  Ok (Some (length (heap w)), with_heap (heap w ++ [df]) w).
Proof.
  intros Hf Hs Ha Hdf. unfold revert_to_version, getitem. unfold_M.
  rewrite Hf. simpl.
  rewrite bool_decide_eq_false_2; [|by intros ->].
  rewrite bool_decide_eq_false_2; [|by rewrite Hs].
  simpl. rewrite Hs, Ha. simpl. by rewrite Hdf.
Qed.

(** What a call of [revert_to_version] that returns has done. *)
Lemma revert_to_version_inv tr hid w r w' :
  revert_to_version tr hid w = Ok (r, w') →
  match r with
  | Some c =>
      ∃ df, id_resolves tr w hid df ∧
        c = length (heap w) ∧ w' = with_heap (heap w ++ [df]) w
  | None =>
      w' = w ∧
      (find_entry (history tr) hid = Ok None ∨
       ∃ e, find_entry (history tr) hid = Ok (Some e) ∧
         (e !! "snapshot_id" = None ∨
          ∃ sid, e !! "snapshot_id" = Some sid ∧ get_snapshot tr sid = None))
  end.
Proof.
  unfold revert_to_version, id_resolves, content, getitem. unfold_M.
  destruct (find_entry (history tr) hid) as [[e|]|] eqn:Hf; simpl; [| |done].
  - destruct (e !! "snapshot_id") as [sid|] eqn:Hs.
    + rewrite bool_decide_eq_false_2; [|by intros ->].
      rewrite bool_decide_eq_false_2; [|done]. simpl.
      destruct (get_snapshot tr sid) as [a|] eqn:Ha; simpl.
      * destruct (heap w !! a) as [df|] eqn:Hdf; [|done].
        intros [= <- <-]. exists df. split; [|done]. by exists e, sid, a.
      * intros [= <- <-]. split; [done|]. right. exists e. split; [done|].
        right. by exists sid.
    + rewrite (bool_decide_eq_true_2 (None = None)); [|done].
      rewrite orb_true_r. intros [= <- <-]. split; [done|]. right.
      exists e. split; [done|]. by left.
  - intros [= <- <-]. split; [done|]. by left.
Qed.


(** ** Snapshot ids of the ledger resolve *)

Lemma resolves_intro tr w sid a df :
  snapshots tr !! sid = Some a → heap w !! a = Some df → resolves tr w sid.
Proof.
  intros Ha Hdf. exists a, df. unfold get_snapshot, content.
  repeat split; [done..|]. intros a'. rewrite Ha. by intros [= <-].
Qed.

Lemma resolves_weaken tr w tr' w' sid :
  resolves tr w sid →
  snapshots tr' !! sid = snapshots tr !! sid →
  (∀ a, is_Some (heap w !! a) → is_Some (heap w' !! a)) →
  resolves tr' w' sid.
Proof.
  intros (a & df & Ha & Hdf & _) Hs Hh. unfold get_snapshot, content in *.
  destruct (Hh a) as [df' Hdf']; [by exists df|].
  eapply resolves_intro; [by rewrite Hs|done].
Qed.

Lemma heap_app_is_Some (h : list DataFrame) l a :
  is_Some (h !! a) → is_Some ((h ++ l) !! a).
Proof. intros [df H]. exists df. by apply lookup_app_l_Some. Qed.

Lemma heap_insert_is_Some (h : list DataFrame) b df a :
  is_Some (h !! a) → is_Some (<[b := df]> h !! a).
Proof.
  intros H. apply lookup_lt_is_Some. rewrite length_insert.
  by apply lookup_lt_is_Some.
Qed.

Lemma ledger_resolves_heap tr w w' :
  ledger_resolves tr w →
  (∀ a, is_Some (heap w !! a) → is_Some (heap w' !! a)) →
  ledger_resolves tr w'.
Proof.
  intros Hinv Hh e sid He Hs. eapply resolves_weaken; [by eapply Hinv|done..].
Qed.

Lemma ledger_resolves_log_change tr w action description data id tr' w' :
  log_change uuid_str now_iso tr action description data w
    = Ok ((id, tr'), w') →
  ledger_resolves tr w → ledger_resolves tr' w'.
Proof.
  intros Hlog Hinv. apply log_change_inv in Hlog as (_ & e & Hh & _ & _ & _ & Hd).
  intros e0 sid He0 Hs0. rewrite Hh in He0.
  apply elem_of_app in He0 as [He0|He0%list_elem_of_singleton].
  - destruct data as [a|].
    + destruct Hd as (df & Ha & _ & Hsn & Hhp & _).
      destruct (decide (sid = uuid_str (S (uuid_draws w)))) as [->|Hne].
      * eapply resolves_intro; [rewrite Hsn; apply lookup_insert_eq|].
        rewrite Hhp. apply list_lookup_middle. done.
      * eapply resolves_weaken; [by eapply Hinv| |].
        -- rewrite Hsn. by apply lookup_insert_ne.
        -- rewrite Hhp. intros ?. apply heap_app_is_Some.
    + destruct Hd as (_ & Hsn & Hhp & _).
      eapply resolves_weaken; [by eapply Hinv|by rewrite Hsn|by rewrite Hhp].
  - subst e0. destruct data as [a|].
    + destruct Hd as (df & Ha & Hs & Hsn & Hhp & _).
      rewrite Hs in Hs0. injection Hs0 as <-.
      eapply resolves_intro; [rewrite Hsn; apply lookup_insert_eq|].
      rewrite Hhp. by apply list_lookup_middle.
    + destruct Hd as (Hs & _). by rewrite Hs in Hs0.
Qed.

Lemma ledger_resolves_step st st' :
  step uuid_str now_iso false st st' →
  ledger_resolves st.1 st.2 → ledger_resolves st'.1 st'.2.
Proof.
  intros Hstep. destruct Hstep as
    [tr w action description data id tr' w' Hlog
    |tr w hid r w' Hrev | tr w | tr w hd Himp | tr w a df | tr w df
    |tr w u w' Hu | tr w t w' Ht]; simpl; intros Hinv.
  - by eapply ledger_resolves_log_change.
  - apply revert_to_version_inv in Hrev. destruct r as [c|].
    + destruct Hrev as (df & _ & _ & ->). eapply ledger_resolves_heap; [done|].
      simpl. intros ?. apply heap_app_is_Some.
    + by destruct Hrev as [-> _].
  - intros e sid He. by apply elem_of_nil in He.
  - done.
  - eapply ledger_resolves_heap; [done|]. simpl.
    intros ?. apply heap_insert_is_Some.
  - eapply ledger_resolves_heap; [done|]. simpl.
    intros ?. apply heap_app_is_Some.
  - injection Hu as _ <-. by eapply ledger_resolves_heap.
  - injection Ht as _ <-. by eapply ledger_resolves_heap.
Qed.

(** C3, as amended: in every state a fresh tracker reaches through
    [log_change], [revert_to_version], [clear_history] and any activity on
    the heap, without [import_history], every snapshot id referenced by an
    entry of the ledger resolves to exactly one snapshot of the store. *)
Theorem ledger_resolves_reachable tr w :
  reachable uuid_str now_iso false tr w → ledger_resolves tr w.
Proof.
  induction 1 as [w|tr w tr' w' _ IH Hstep].
  - intros e sid He. by apply elem_of_nil in He.
  - by apply (ledger_resolves_step _ _ Hstep).
Qed.


(** ** Entry ids come from [uuid4] *)

(** [uuid.uuid4()] does not return the same value twice. *)
Hypothesis uuid_fresh : ∀ i j, uuid_str i = uuid_str j → i = j.

Lemma log_change_returns tr action description data w :
  (∀ a, data = Some a → is_Some (heap w !! a)) →
  ∃ id tr' w',
    log_change uuid_str now_iso tr action description data w
      = Ok ((id, tr'), w').
Proof.
  intros Hd. destruct data as [a|].
  - destruct (Hd a eq_refl) as [df Ha].
    rewrite (log_change_with_table _ _ _ _ _ _ Ha). by eexists _, _, _.
  - rewrite log_change_without_table. by eexists _, _, _.
Qed.

Lemma log_change_draws tr action description data w id tr' w' :
  log_change uuid_str now_iso tr action description data w
    = Ok ((id, tr'), w') →
  uuid_draws w < uuid_draws w' ∧
  ∀ a, is_Some (heap w !! a) → is_Some (heap w' !! a).
Proof.
  intros (_ & e & _ & _ & _ & _ & Hd)%log_change_inv. destruct data as [a|].
  - destruct Hd as (df & _ & _ & _ & -> & ->). split; [lia|].
    intros ?. apply heap_app_is_Some.
  - destruct Hd as (_ & _ & -> & ->). split; [lia|done].
Qed.

Lemma ledger_ids_drawn_mono tr w w' :
  ledger_ids_drawn uuid_str tr w → uuid_draws w ≤ uuid_draws w' →
  ledger_ids_drawn uuid_str tr w'.
Proof.
  intros Hinv Hle e He. destruct (Hinv e He) as (j & Hj & Hid).
  exists j. split; [lia|done].
Qed.

Lemma ledger_ids_drawn_log_change tr action description data w id tr' w' :
  log_change uuid_str now_iso tr action description data w
    = Ok ((id, tr'), w') →
  ledger_ids_drawn uuid_str tr w → ledger_ids_drawn uuid_str tr' w'.
Proof.
  intros Hlog Hinv. pose proof (log_change_draws _ _ _ _ _ _ _ _ Hlog) as [Hlt _].
  apply log_change_inv in Hlog as (-> & e & Hh & Hid & _).
  intros e0 He0. rewrite Hh in He0.
  apply elem_of_app in He0 as [He0|He0%list_elem_of_singleton].
  - destruct (Hinv e0 He0) as (j & Hj & Hj'). exists j. split; [lia|done].
  - subst e0. exists (uuid_draws w). done.
Qed.

Lemma ledger_ids_drawn_step st st' :
  step uuid_str now_iso false st st' →
  ledger_ids_drawn uuid_str st.1 st.2 →
  ledger_ids_drawn uuid_str st'.1 st'.2.
Proof.
  intros Hstep. destruct Hstep as
    [tr w action description data id tr' w' Hlog
    |tr w hid r w' Hrev | tr w | tr w hd Himp | tr w a df | tr w df
    |tr w u w' Hu | tr w t w' Ht]; simpl; intros Hinv.
  - by eapply ledger_ids_drawn_log_change.
  - apply revert_to_version_inv in Hrev. destruct r as [c|].
    + destruct Hrev as (df & _ & _ & ->). by eapply ledger_ids_drawn_mono.
    + by destruct Hrev as [-> _].
  - intros e He. by apply elem_of_nil in He.
  - done.
  - by eapply ledger_ids_drawn_mono.
  - by eapply ledger_ids_drawn_mono.
  - injection Hu as _ <-. eapply ledger_ids_drawn_mono; [done|simpl; lia].
  - injection Ht as _ <-. by eapply ledger_ids_drawn_mono.
Qed.

Lemma ledger_ids_drawn_reachable tr w :
  reachable uuid_str now_iso false tr w → ledger_ids_drawn uuid_str tr w.
Proof.
  induction 1 as [w|tr w tr' w' _ IH Hstep].
  - intros e He. by apply elem_of_nil in He.
  - by apply (ledger_ids_drawn_step _ _ Hstep).
Qed.

(** An id drawn now or later is not in the ledger. *)
Lemma ledger_ids_drawn_not_in tr w k :
  ledger_ids_drawn uuid_str tr w → uuid_draws w ≤ k →
  uuid_str k ∉ entry_ids (history tr).
Proof.
  intros Hinv Hk (e & He & Hid)%list_elem_of_omap.
  destruct (Hinv e He) as (j & Hj & Hid'). rewrite Hid in Hid'.
  injection Hid' as Heq%uuid_fresh. lia.
Qed.

Lemma ledger_ids_drawn_find_None tr w k :
  ledger_ids_drawn uuid_str tr w → uuid_draws w ≤ k →
  find_entry (history tr) (PStr (uuid_str k)) = Ok None.
Proof.
  intros Hinv Hk. apply find_entry_None. intros e He.
  destruct (Hinv e He) as (j & Hj & Hid). exists (uuid_str j).
  split; [done|]. intros [= Heq%uuid_fresh]. lia.
Qed.

(** A ledger of drawn ids does not hold the next id. *)
Lemma ledger_ids_drawn_next_id_new tr w :
  ledger_ids_drawn uuid_str tr w → next_id_is_new uuid_str tr w.
Proof. intros H. by eapply ledger_ids_drawn_find_None. Qed.

(** C9: [log_change] called without a table returns: it appends one entry
    that has no [snapshot_id], leaves the snapshot store and the heap as they
    were, and returns the id of the new entry, an id [uuid4] had not produced
    before and that no entry of a ledger of drawn ids carries. *)
Theorem log_change_without_snapshot tr action description w :
  ∃ id e tr' w',
    log_change uuid_str now_iso tr action description None w
      = Ok ((id, tr'), w') ∧
    get_history tr' = get_history tr ++ [e] ∧
    e !! "id" = Some id ∧
    e !! "action" = Some action ∧
    e !! "description" = Some description ∧
    e !! "snapshot_id" = None ∧
    snapshots tr' = snapshots tr ∧
    heap w' = heap w ∧
    id = uuid_str (uuid_draws w) ∧
    (ledger_ids_drawn uuid_str tr w → id ∉ entry_ids (get_history tr)).
Proof.
  destruct (log_change_returns tr action description None w)
    as (id & tr' & w' & Hlog); [done|].
  exists id. pose proof Hlog as (-> & e & Hh & Hid & Ha & Hd & Hs & Hsn & Hhp & _)%log_change_inv.
  exists e, tr', w'. repeat split; try done.
  intros Hinv. by eapply ledger_ids_drawn_not_in.
Qed.


(** ** A run of [log_change] calls *)

Lemma entry_ids_Forall2 (es : list entry) ids :
  Forall2 (λ (e : entry) id, e !! "id" = Some id) es ids →
  entry_ids es = ids.
Proof.
  induction 1 as [|e id es ids He _ IH]; [done|].
  unfold entry_ids in *. simpl. rewrite He. simpl. f_equal. exact IH.
Qed.

Lemma log_changes_spec calls : ∀ tr0 w,
  (∀ action description a,
     (action, description, Some a) ∈ calls → is_Some (heap w !! a)) →
  ∃ ids tr w' es,
    log_changes uuid_str now_iso calls tr0 w = Ok ((ids, tr), w') ∧
    history tr = history tr0 ++ es ∧
    Forall2 (λ (e : entry) id, e !! "id" = Some id) es ids ∧
    Forall2 (λ (e : entry) (c : string * string * option addr),
               e !! "action" = Some c.1.1 ∧
               e !! "description" = Some c.1.2) es calls ∧
    Forall (λ id, ∃ j, uuid_draws w ≤ j ∧ id = uuid_str j) ids ∧
    NoDup ids.
Proof.
  induction calls as [|[[action description] data] calls IH]; intros tr0 w Hv.
  - exists [], tr0, w, []. simpl. rewrite app_nil_r.
    repeat split; try done; constructor.
  - destruct (log_change_returns tr0 action description data w)
      as (id & tr1 & w1 & Hlog).
    { intros a ->. eapply Hv. left. }
    pose proof (log_change_draws _ _ _ _ _ _ _ _ Hlog) as [Hlt Hheap].
    pose proof Hlog as (-> & e & Hh & Hid & Ha & Hd & _)%log_change_inv.
    destruct (IH tr1 w1) as (ids & tr & w' & es & Hrun & Hh' & Hids & Hcs & Hj & Hnd).
    { intros a' d' b Hin. apply Hheap. eapply Hv. right. done. }
    exists (uuid_str (uuid_draws w) :: ids), tr, w', (e :: es).
    split.
    { simpl. unfold mbind, M_bind at 1. rewrite Hlog.
      unfold mbind, M_bind at 1. by rewrite Hrun. }
    split; [by rewrite Hh', Hh, <- app_assoc|].
    split; [by constructor|]. split; [by constructor|]. split.
    + constructor; [by exists (uuid_draws w)|].
      eapply Forall_impl; [done|]. intros x (j & Hj' & ->).
      exists j. split; [lia|done].
    + constructor; [|done]. intros Hin.
      rewrite Forall_forall in Hj. destruct (Hj _ Hin) as (j & Hj' & Heq).
      apply uuid_fresh in Heq. lia.
Qed.

(** C7: [N] calls of [log_change] on a fresh tracker all return, and then
    [get_history] holds exactly [N] entries, the [i]-th being the entry of
    the [i]-th call (oldest first) and carrying the id that call returned;
    the [N] ids are pairwise distinct.  Every call of [log_change] that
    returns has made the ledger one entry longer. *)
Theorem log_changes_history calls w :
  (∀ action description a,
     (action, description, Some a) ∈ calls → is_Some (heap w !! a)) →
  (∃ ids tr w',
     log_changes uuid_str now_iso calls init w = Ok ((ids, tr), w') ∧
     length (get_history tr) = length calls ∧
     entry_ids (get_history tr) = ids ∧
     NoDup ids ∧
     ∀ i action description data,
       calls !! i = Some (action, description, data) →
       ∃ e id, get_history tr !! i = Some e ∧ ids !! i = Some id ∧
         e !! "id" = Some id ∧
         e !! "action" = Some action ∧
         e !! "description" = Some description) ∧
  (∀ tr action description data w0 id tr' w',
     log_change uuid_str now_iso tr action description data w0
       = Ok ((id, tr'), w') →
     length (get_history tr') = S (length (get_history tr))).
Proof.
  intros Hv. split.
  - destruct (log_changes_spec calls init w Hv)
      as (ids & tr & w' & es & Hrun & Hh & Hids & Hcs & _ & Hnd).
    simpl in Hh. exists ids, tr, w'. unfold get_history. rewrite Hh.
    split; [done|].
    split; [by eapply Forall2_length|].
    split; [by apply entry_ids_Forall2|]. split; [done|].
    intros i action description data Hi.
    destruct (Forall2_lookup_r _ _ _ _ _ Hcs Hi) as (e & He & Ha & Hd).
    destruct (Forall2_lookup_l _ _ _ _ _ Hids He) as (id & Hid & Heid).
    by exists e, id.
  - intros tr action description data w0 id tr' w'
      (_ & e & Hh & _)%log_change_inv.
    unfold get_history. rewrite Hh, length_app. simpl. lia.
Qed.


(** ** Reverting to a logged entry *)

Lemma keeps_snapshot_resolves tr w hid df :
  keeps_snapshot uuid_str tr w hid df → id_resolves tr w hid df.
Proof. intros (e & j & a & ? & ? & ? & ? & ?). by exists e, (uuid_str j), a. Qed.

(** Right after [log_change] stored a table, the returned id leads to its
    content. *)
Lemma log_change_keeps_snapshot tr action description a w T id tr1 w1 :
  next_id_is_new uuid_str tr w →
  content w a = Some T →
  log_change uuid_str now_iso tr action description (Some a) w
    = Ok ((id, tr1), w1) →
  keeps_snapshot uuid_str tr1 w1 (PStr id) T.
Proof.
  intros Hinv Ha Hlog. unfold content in Ha.
  rewrite (log_change_with_table _ _ _ _ _ _ Ha) in Hlog.
  injection Hlog as <- <- <-.
  eexists _, (S (uuid_draws w)), (length (heap w)).
  unfold get_snapshot, content. simpl. split.
  { rewrite find_entry_app_None; [|done].
    simpl. unfold getitem. rewrite lookup_insert_ne; [|done].
    rewrite lookup_insert_eq. by rewrite decide_True. }
  split; [apply lookup_insert_eq|]. split; [lia|].
  split; [apply lookup_insert_eq|]. by apply list_lookup_middle.
Qed.

Lemma keeps_snapshot_later_step st st' hid T :
  later_step uuid_str now_iso st st' →
  keeps_snapshot uuid_str st.1 st.2 hid T →
  keeps_snapshot uuid_str st'.1 st'.2 hid T.
Proof.
  intros Hstep. destruct Hstep as
    [tr w action description data id tr' w' Hlog
    |tr w hid' r w' Hrev | tr w a df Hlive | tr w df]; simpl;
    intros (e & j & b & Hf & Hs & Hj & Hb & HT);
    unfold keeps_snapshot, get_snapshot, content in *.
  - apply log_change_inv in Hlog as (_ & e' & Hh & _ & _ & _ & Hd).
    exists e, j, b. rewrite Hh. split; [by apply find_entry_app_Some|].
    split; [done|]. destruct data as [a|].
    + destruct Hd as (df & _ & _ & -> & -> & ->). split; [lia|]. split.
      * rewrite lookup_insert_ne; [done|]. intros Heq%uuid_fresh. lia.
      * by apply lookup_app_l_Some.
    + destruct Hd as (_ & -> & -> & ->). split; [lia|done].
  - exists e, j, b. apply revert_to_version_inv in Hrev. destruct r as [c|].
    + destruct Hrev as (df & _ & _ & ->). simpl.
      repeat split; try done. by apply lookup_app_l_Some.
    + by destruct Hrev as [-> _].
  - exists e, j, b. simpl. repeat split; try done.
    rewrite list_lookup_insert_ne; [done|]. intros ->. by eapply Hlive.
  - exists e, j, b. simpl. repeat split; try done. by apply lookup_app_l_Some.
Qed.

Lemma keeps_snapshot_later st st' hid T :
  rtc (later_step uuid_str now_iso) st st' →
  keeps_snapshot uuid_str st.1 st.2 hid T →
  keeps_snapshot uuid_str st'.1 st'.2 hid T.
Proof.
  induction 1 as [|st st1 st' Hstep _ IH]; [done|].
  intros H. apply IH. by eapply keeps_snapshot_later_step.
Qed.

(** C4: let [log_change] log an entry with the table [T], under an id that
    is new to the ledger; after any sequence of later [log_change] calls,
    reverts, new tables and in-place mutations of tables other than the
    stored snapshot objects, [revert_to_version] on the returned id returns
    a table whose content is [T]. *)
Theorem revert_returns_logged_table
    tr w action description a T id tr1 w1 tr2 w2 :
  next_id_is_new uuid_str tr w →
  content w a = Some T →
  log_change uuid_str now_iso tr action description (Some a) w
    = Ok ((id, tr1), w1) →
  rtc (later_step uuid_str now_iso) (tr1, w1) (tr2, w2) →
  ∃ c w3,
    revert_to_version tr2 (PStr id) w2 = Ok (Some c, w3) ∧
    content w3 c = Some T.
Proof.
  intros Hinv Ha Hlog Hlater.
  pose proof (log_change_keeps_snapshot _ _ _ _ _ _ _ _ _ Hinv Ha Hlog) as Hk.
  apply (keeps_snapshot_later _ _ _ _ Hlater) in Hk.
  destruct Hk as (e & j & b & Hf & Hs & _ & Hb & HT). simpl in *.
  eexists _, _. split; [by eapply revert_to_version_found|].
  unfold content. simpl. by apply list_lookup_middle.
Qed.


(** ** The revert handler *)

Abbreviation revert_route := (revert_to_history_version uuid_str now_iso).

Lemma revert_route_unavailable config data w :
  HISTORY_TRACKER config = None ∨ MAIN_DF config = None →
  revert_route config data w =
  Ok ((jsonify_error "History or data not available." 404, config), w).
Proof.
  unfold revert_to_history_version. intros [-> | ->]; [done|].
  by destruct (HISTORY_TRACKER config).
Qed.

Lemma revert_route_no_id config data w tr cur :
  HISTORY_TRACKER config = Some tr → MAIN_DF config = Some cur →
  truthy (default PNone (data !! "id")) = false →
  revert_route config data w =
  Ok ((jsonify_error "History ID is required." 400, config), w).
Proof.
  unfold revert_to_history_version. intros -> -> Hid. by rewrite Hid.
Qed.

Lemma revert_route_not_found config data w tr cur w1 :
  HISTORY_TRACKER config = Some tr → MAIN_DF config = Some cur →
  truthy (default PNone (data !! "id")) = true →
  revert_to_version tr (default PNone (data !! "id")) w = Ok (None, w1) →
  revert_route config data w =
  Ok ((jsonify_error "History snapshot not found." 404, config), w1).
Proof.
  unfold revert_to_history_version. intros -> -> Hid Hrev. rewrite Hid. simpl.
  unfold mbind, M_bind at 1. by rewrite Hrev.
Qed.

Lemma revert_route_found config data w tr cur c w1 id tr1 w2 :
  HISTORY_TRACKER config = Some tr → MAIN_DF config = Some cur →
  truthy (default PNone (data !! "id")) = true →
  revert_to_version tr (default PNone (data !! "id")) w = Ok (Some c, w1) →
  log_change uuid_str now_iso tr "Revert"
    "Reverted to state from an earlier action." (Some c) w1
    = Ok ((id, tr1), w2) →
  revert_route config data w =
  Ok ((jsonify_success "Successfully reverted to the selected state.",
       {| MAIN_DF := Some c; HISTORY_TRACKER := Some tr1 |}), w2).
Proof.
  unfold revert_to_history_version. intros -> -> Hid Hrev Hlog.
  rewrite Hid. simpl. unfold mbind, M_bind at 1. rewrite Hrev.
  unfold mbind, M_bind at 1. by rewrite Hlog.
Qed.

(** A response with status 200 comes from the success branch only. *)
Lemma revert_route_success_inv config data w resp config' w' :
  revert_route config data w = Ok ((resp, config'), w') →
  status_code resp = 200 →
  ∃ tr cur c w1 id tr1,
    HISTORY_TRACKER config = Some tr ∧ MAIN_DF config = Some cur ∧
    truthy (default PNone (data !! "id")) = true ∧
    revert_to_version tr (default PNone (data !! "id")) w = Ok (Some c, w1) ∧
    log_change uuid_str now_iso tr "Revert"
      "Reverted to state from an earlier action." (Some c) w1
      = Ok ((id, tr1), w') ∧
    resp = jsonify_success "Successfully reverted to the selected state." ∧
    config' = {| MAIN_DF := Some c; HISTORY_TRACKER := Some tr1 |}.
Proof.
  unfold revert_to_history_version.
  destruct (HISTORY_TRACKER config) as [tr|]; simpl; [|intros [= <- <- <-]; simpl; discriminate].
  destruct (MAIN_DF config) as [cur|]; simpl; [|intros [= <- <- <-]; simpl; discriminate].
  destruct (truthy _) eqn:Hid; simpl; [|intros [= <- <- <-]; simpl; discriminate].
  unfold mbind, M_bind at 1.
  destruct (revert_to_version _ _ _) as [[[c|] w1]|] eqn:Hrev; [| |done].
  - unfold mbind, M_bind at 1.
    destruct (log_change _ _ _ _ _ _ _) as [[[id tr1] w2]|] eqn:Hlog; [|done].
    intros [= <- <- <-] _. by exists tr, cur, c, w1, id, tr1.
  - intros [= <- <- <-]; simpl; discriminate.
Qed.

(** The success branch, from what the id resolves to. *)
Lemma revert_route_resolves config data w tr cur T :
  HISTORY_TRACKER config = Some tr → MAIN_DF config = Some cur →
  truthy (default PNone (data !! "id")) = true →
  id_resolves tr w (default PNone (data !! "id")) T →
  ∃ tr1 w2 e,
    revert_route config data w =
      Ok ((jsonify_success "Successfully reverted to the selected state.",
           {| MAIN_DF := Some (length (heap w));
              HISTORY_TRACKER := Some tr1 |}), w2) ∧
    content w2 (length (heap w)) = Some T ∧
    history tr1 = history tr ++ [e] ∧
    e !! "id" = Some (uuid_str (uuid_draws w)) ∧
    e !! "action" = Some "Revert" ∧
    e !! "snapshot_id" = Some (uuid_str (S (uuid_draws w))) ∧
    get_snapshot tr1 (uuid_str (S (uuid_draws w)))
      = Some (S (length (heap w))) ∧
    content w2 (S (length (heap w))) = Some T ∧
    uuid_draws w2 = S (S (uuid_draws w)).
Proof.
  intros Htr Hdf Hid (e & sid & a & Hf & Hs & Ha & HT).
  pose proof (revert_to_version_found _ _ _ _ _ _ _ Hf Hs Ha HT) as Hrev.
  set (w1 := with_heap (heap w ++ [T]) w) in *.
  assert (heap w1 !! length (heap w) = Some T) as Hc
    by (by apply list_lookup_middle).
  pose proof (log_change_with_table tr "Revert"
    "Reverted to state from an earlier action." _ _ _ Hc) as Hlog.
  eexists _, _, _. split; [by eapply revert_route_found|].
  unfold content, get_snapshot. simpl. split.
  { apply lookup_app_l_Some. by apply list_lookup_middle. }
  split; [done|]. split; [done|]. split; [done|].
  split; [apply lookup_insert_eq|].
  split; [rewrite lookup_insert_eq, length_app; simpl; by rewrite Nat.add_1_r|].
  split; [|done]. apply list_lookup_middle. rewrite length_app. simpl. lia.
Qed.


Lemma id_unresolved_revert tr hid w :
  id_unresolved tr hid → revert_to_version tr hid w = Ok (None, w).
Proof.
  unfold revert_to_version, getitem. unfold_M.
  intros [Hf|(e & Hf & [Hs|(sid & Hs & Ha)])]; rewrite Hf; simpl; [done| |].
  - rewrite (bool_decide_eq_true_2 (_ !! _ = None)); [|done].
    by rewrite orb_true_r.
  - rewrite bool_decide_eq_false_2; [|by intros ->].
    rewrite bool_decide_eq_false_2; [|by rewrite Hs].
    simpl. by rewrite Hs, Ha.
Qed.

(** On a well-formed state an id either resolves or it does not: the scan
    does not raise and the store refers to live objects. *)
Lemma resolves_or_unresolved tr w hid :
  well_formed tr w → (∃ T, id_resolves tr w hid T) ∨ id_unresolved tr hid.
Proof.
  intros [Hids Halive]. unfold id_resolves, id_unresolved, content.
  assert (∃ t, find_entry (history tr) hid = Ok t) as [[e|] Hf].
  { revert Hids. generalize (history tr). intros l.
    induction l as [|x l IH]; intros Hids; simpl; [by eexists|].
    destruct (Hids x) as [i Hi]; [left|]. unfold getitem. rewrite Hi.
    destruct (decide (PStr i = hid)); [by eexists|].
    apply IH. intros e He. apply Hids. by right. }
  - destruct (e !! "snapshot_id") as [sid|] eqn:Hs.
    + destruct (get_snapshot tr sid) as [a|] eqn:Ha.
      * destruct (Halive sid a Ha) as [T HT]. left. by exists T, e, sid, a.
      * right. right. exists e. split; [done|]. right. by exists sid.
    + right. right. exists e. split; [done|]. by left.
  - right. by left.
Qed.

(** C10: when the scan stops at an entry whose [snapshot_id] the store does
    not hold, [revert_to_version] returns [None]; it does not raise, and it
    changes nothing. *)
Theorem revert_dangling_snapshot tr hid w e sid :
  find_entry (history tr) hid = Ok (Some e) →
  e !! "snapshot_id" = Some sid →
  get_snapshot tr sid = None →
  revert_to_version tr hid w = Ok (None, w).
Proof.
  intros Hf Hs Ha. apply id_unresolved_revert. right. exists e.
  split; [done|]. right. by exists sid.
Qed.

(** After [import_history] the store is empty, so on imported entries that
    all have an id every revert returns [None]. *)
Lemma revert_after_import tr entries hid w :
  (∀ e, e ∈ entries → is_Some (e !! "id")) →
  revert_to_version (import_history tr (Some entries)) hid w = Ok (None, w).
Proof.
  intros Hids.
  destruct (resolves_or_unresolved (import_history tr (Some entries)) w hid)
    as [(T & e & sid & a & _ & _ & Ha & _)|Hun].
  - split; [done|]. intros sid a Ha. simpl in Ha. by rewrite lookup_empty in Ha.
  - unfold get_snapshot in Ha. simpl in Ha. by rewrite lookup_empty in Ha.
  - by apply id_unresolved_revert.
Qed.

(** C6: a revert that succeeds leaves the entries of the ledger in place and
    appends one: the ledger of [N] entries becomes one of [N+1] entries whose
    first [N] are the old ones in their order, and whose last records the
    revert. *)
Theorem revert_appends_one_entry config data w resp config' w' tr :
  HISTORY_TRACKER config = Some tr →
  revert_route config data w = Ok ((resp, config'), w') →
  status_code resp = 200 →
  ∃ tr' e,
    HISTORY_TRACKER config' = Some tr' ∧
    get_history tr' = get_history tr ++ [e] ∧
    length (get_history tr') = S (length (get_history tr)) ∧
    (∀ i, i < length (get_history tr) →
       get_history tr' !! i = get_history tr !! i) ∧
    e !! "action" = Some "Revert" ∧
    e !! "description" = Some "Reverted to state from an earlier action.".
Proof.
  intros Htr Hr Hok.
  destruct (revert_route_success_inv _ _ _ _ _ _ Hr Hok)
    as (tr0 & cur & c & w1 & id & tr1 & Htr0 & _ & _ & _ & Hlog & _ & ->).
  rewrite Htr in Htr0. injection Htr0 as <-.
  apply log_change_inv in Hlog as (_ & e & Hh & _ & Ha & Hd & _).
  exists tr1, e. unfold get_history. rewrite Hh.
  split; [done|]. split; [done|].
  split; [rewrite length_app; simpl; lia|].
  split; [|done]. intros i Hi. by apply lookup_app_l.
Qed.


(** ** Reverting to a revert *)

(** [str(uuid.uuid4())] is not the empty string. *)
Hypothesis uuid_nonempty : ∀ k, uuid_str k ≠ EmptyString.

Lemma truthy_uuid k : truthy (PStr (uuid_str k)) = true.
Proof.
  simpl. apply negb_true_iff, String.eqb_neq, uuid_nonempty.
Qed.

(** C5: after a successful revert, whose entry got an id new to the ledger,
    reverting to the entry that this revert appended succeeds too and
    installs a table with the same content as the one the first revert
    installed. *)
Theorem revert_twice_same_content config data w tr resp1 config1 w1 :
  HISTORY_TRACKER config = Some tr →
  next_id_is_new uuid_str tr w →
  revert_route config data w = Ok ((resp1, config1), w1) →
  status_code resp1 = 200 →
  ∃ tr1 R rid cur1 T,
    HISTORY_TRACKER config1 = Some tr1 ∧
    last (get_history tr1) = Some R ∧
    R !! "id" = Some rid ∧ R !! "action" = Some "Revert" ∧
    MAIN_DF config1 = Some cur1 ∧ content w1 cur1 = Some T ∧
    ∃ resp2 config2 w2 cur2,
      revert_route config1 {[ "id" := PStr rid ]} w1
        = Ok ((resp2, config2), w2) ∧
      status_code resp2 = 200 ∧
      MAIN_DF config2 = Some cur2 ∧ content w2 cur2 = Some T.
Proof.
  intros Htr Hinv Hr Hok.
  destruct (revert_route_success_inv _ _ _ _ _ _ Hr Hok)
    as (tr0 & cur & c & wm & id & tr1' & Htr0 & Hdf & Hid & Hrev & _).
  rewrite Htr in Htr0. injection Htr0 as <-.
  apply revert_to_version_inv in Hrev as (T & HT & _).
  destruct (revert_route_resolves _ _ _ _ _ _ Htr Hdf Hid HT)
    as (tr1 & w2 & R & Hr' & Hc & Hh & HRid & HRa & HRs & Hsn & Hsc & Hdr).
  rewrite Hr in Hr'. injection Hr' as -> -> ->.
  exists tr1, R, (uuid_str (uuid_draws w)), (length (heap w)), T.
  unfold get_history. rewrite Hh, last_snoc. simpl.
  repeat (split; [done|]).
  assert (id_resolves tr1 w2 (PStr (uuid_str (uuid_draws w))) T) as HT2.
  { exists R, (uuid_str (S (uuid_draws w))), (S (length (heap w))).
    split; [|done]. rewrite Hh.
    rewrite find_entry_app_None; [|done].
    simpl. unfold getitem. rewrite HRid. by rewrite decide_True. }
  edestruct (revert_route_resolves
    {| MAIN_DF := Some (length (heap w)); HISTORY_TRACKER := Some tr1 |}
    {[ "id" := PStr (uuid_str (uuid_draws w)) ]} w2 tr1 (length (heap w)) T)
    as (tr2 & w3 & e & Hr2 & Hc2 & _); [done|done| | |].
  - rewrite lookup_singleton_eq. apply truthy_uuid.
  - by rewrite lookup_singleton_eq.
  - eexists _, _, w3, (length (heap w2)). by rewrite Hr2.
Qed.

(** ** What [revert_to_version] hands out is a copy *)

(** The table returned by [revert_to_version] is a new object: mutating it
    leaves the objects of the store as they are, and a second call for the
    same id returns the stored content again. *)
Lemma revert_copy_independent tr hid w c w1 df' :
  revert_to_version tr hid w = Ok (Some c, w1) →
  ∃ T,
    content w1 c = Some T ∧
    (∀ a, is_Some (heap w !! a) → content (mutate c df' w1) a = content w a) ∧
    ∃ c2 w2,
      revert_to_version tr hid (mutate c df' w1) = Ok (Some c2, w2) ∧
      content w2 c2 = Some T.
Proof.
  intros (T & (e & sid & a & Hf & Hs & Ha & HT) & -> & ->)%revert_to_version_inv.
  unfold content in *. simpl.
  assert (∀ b, is_Some (heap w !! b) →
            <[length (heap w) := df']> (heap w ++ [T]) !! b = heap w !! b)
    as Hframe.
  { intros b [x Hb]. pose proof (lookup_lt_Some _ _ _ Hb).
    rewrite list_lookup_insert_ne; [|lia]. by rewrite lookup_app_l. }
  exists T. split; [by apply list_lookup_middle|]. split; [done|].
  eexists _, _. split.
  - eapply revert_to_version_found; [done..|].
    simpl. rewrite Hframe; [done|by exists T].
  - simpl. apply list_lookup_middle. by rewrite length_insert.
Qed.

(** The handler keeps the current table apart from the store: the table it
    installs is the copy made by [revert_to_version], and [log_change] stores
    a copy of that copy. *)
Lemma revert_keeps_live_table_apart config data w resp config' w' tr :
  HISTORY_TRACKER config = Some tr →
  (∀ sid a, snapshots tr !! sid = Some a → is_Some (heap w !! a)) →
  revert_route config data w = Ok ((resp, config'), w') →
  status_code resp = 200 →
  ∃ tr' cur',
    HISTORY_TRACKER config' = Some tr' ∧ MAIN_DF config' = Some cur' ∧
    ∀ sid, snapshots tr' !! sid ≠ Some cur'.
Proof.
  intros Htr Halive Hr Hok.
  destruct (revert_route_success_inv _ _ _ _ _ _ Hr Hok)
    as (tr0 & cur & c & w1 & id & tr1 & Htr0 & _ & _ & Hrev & Hlog & _ & ->).
  rewrite Htr in Htr0. injection Htr0 as <-.
  apply revert_to_version_inv in Hrev as (T & _ & -> & ->).
  apply log_change_inv in Hlog as (_ & e & _ & _ & _ & _ & df & _ & _ & Hsn & _).
  exists tr1, (length (heap w)). split; [done|]. split; [done|].
  intros sid. rewrite Hsn. simpl. rewrite length_app. simpl.
  intros [[_ Heq]|[_ Ha]]%lookup_insert_Some; [lia|].
  apply Halive, lookup_lt_is_Some in Ha. lia.
Qed.

End Properties.

(** * The definitions at work *)

Lemma sample_uuid_fresh i j : sample_uuid i = sample_uuid j → i = j.
Proof. unfold sample_uuid. simpl. intros [= H]. by apply (inj pretty). Qed.

Lemma sample_uuid_nonempty k : sample_uuid k ≠ EmptyString.
Proof. done. Qed.

Lemma sample_logged_eq :
  log_change sample_uuid sample_now init "Session Load"
    "Loaded session file 'a.json'" (Some 0) sample_world
  = Ok ((sample_uuid 0, sample_logged.1), sample_logged.2).
Proof. reflexivity. Qed.

Lemma sample_logged_reachable imports :
  reachable sample_uuid sample_now imports sample_logged.1 sample_logged.2.
Proof.
  eapply reachable_step; [apply (reachable_init _ _ _ sample_world)|].
  eapply step_log_change. apply sample_logged_eq.
Qed.

Lemma sample_reverted_eq :
  revert_to_history_version sample_uuid sample_now sample_config
    {[ "id" := PStr "u0" ]} sample_logged.2 = Ok sample_reverted.
Proof. reflexivity. Qed.

Lemma small_reverted_eq :
  revert_to_history_version sample_uuid sample_now small_config
    {[ "id" := PStr "u0" ]} small_logged.2 = Ok small_reverted.
Proof. reflexivity. Qed.

(** ** C1 *)

(** C1, as stated, fails: two reverts that install tables of different row
    counts get the same response, so the response does not carry the
    counts. *)
Lemma revert_response_carries_no_counts :
  ¬ ∃ decode : Response → nat * nat,
      ∀ config data w resp config' w' cur df,
        revert_to_history_version sample_uuid sample_now config data w
          = Ok ((resp, config'), w') →
        status_code resp = 200 →
        MAIN_DF config' = Some cur → content w' cur = Some df →
        decode resp = shape df.
Proof.
  intros [decode H].
  pose proof (H _ _ _ sample_reverted.1.1 sample_reverted.1.2
                sample_reverted.2 2 table_2x2 sample_reverted_eq
                eq_refl eq_refl eq_refl) as H1.
  pose proof (H _ _ _ small_reverted.1.1 small_reverted.1.2
                small_reverted.2 2 table_1x2 small_reverted_eq
                eq_refl eq_refl eq_refl) as H2.
  assert (sample_reverted.1.1 = small_reverted.1.1) as Heq by reflexivity.
  rewrite Heq, H2 in H1. discriminate H1.
Qed.

(** ** C2 *)

(** C2 breaks on [get_snapshot]: it returns the object the store holds, so
    a mutation through the returned reference is seen by the next
    [get_snapshot] for the same id, and by the next revert. *)
Lemma get_snapshot_returns_stored_object :
  let tr := sample_logged.1 in
  let w := sample_logged.2 in
  let w' := mutate 1 table_1x2 w in
  get_snapshot tr "u1" = Some 1 ∧
  content w 1 = Some table_2x2 ∧
  content w' 1 = Some table_1x2 ∧
  (∃ c w'', revert_to_version tr (PStr "u0") w' = Ok (Some c, w'') ∧
            content w'' c = Some table_1x2) ∧
  table_1x2 ≠ table_2x2.
Proof.
  repeat split; try reflexivity; [|discriminate].
  eexists _, _. split; reflexivity.
Qed.

(** ** C3 *)

(** C3, as stated, fails: [import_history] is not a clear, and it leaves an
    entry whose snapshot id the store does not hold. *)
Lemma import_breaks_ledger_resolves :
  reachable sample_uuid sample_now true sample_imported sample_world ∧
  ¬ ledger_resolves sample_imported sample_world.
Proof.
  split.
  - eapply reachable_step; [apply (reachable_init _ _ _ sample_world)|].
    by apply (step_import _ _ _ init sample_world (Some [imported_entry])).
  - intros H. destruct (H imported_entry "s1") as (a & df & Ha & _).
    + by left.
    + reflexivity.
    + discriminate Ha.
Qed.

Lemma ledger_resolves_reachable_witness :
  ledger_resolves sample_logged.1 sample_logged.2.
Proof.
  apply (ledger_resolves_reachable sample_uuid sample_now).
  eapply reachable_step; [apply (reachable_init _ _ _ sample_world)|].
  eapply step_log_change. apply sample_logged_eq.
Defined.

(** ** C4 *)

Lemma revert_returns_logged_table_witness :
  ∃ c w3,
    revert_to_version sample_logged.1 (PStr (sample_uuid 0))
      (mutate 0 table_1x2 sample_logged.2) = Ok (Some c, w3) ∧
    content w3 c = Some table_2x2.
Proof.
  apply (revert_returns_logged_table sample_uuid sample_now sample_uuid_fresh
           init sample_world "Session Load" "Loaded session file 'a.json'"
           0 table_2x2 (sample_uuid 0) sample_logged.1 sample_logged.2).
  - reflexivity.
  - reflexivity.
  - reflexivity.
  - apply rtc_once, later_mutate. intros sid.
    assert (snapshots sample_logged.1 = {[ sample_uuid 1 := 1 ]}) as ->
      by reflexivity.
    by intros [_ [=]]%lookup_singleton_Some.
Defined.

(** ** C5 *)

Lemma revert_twice_same_content_witness :
  ∃ tr1 R rid cur1 T,
    HISTORY_TRACKER sample_reverted.1.2 = Some tr1 ∧
    last (get_history tr1) = Some R ∧
    R !! "id" = Some rid ∧ R !! "action" = Some "Revert" ∧
    MAIN_DF sample_reverted.1.2 = Some cur1 ∧
    content sample_reverted.2 cur1 = Some T ∧
    ∃ resp2 config2 w2 cur2,
      revert_to_history_version sample_uuid sample_now sample_reverted.1.2
        {[ "id" := PStr rid ]} sample_reverted.2
        = Ok ((resp2, config2), w2) ∧
      status_code resp2 = 200 ∧
      MAIN_DF config2 = Some cur2 ∧ content w2 cur2 = Some T.
Proof.
  apply (revert_twice_same_content sample_uuid sample_now
           sample_uuid_nonempty sample_config {[ "id" := PStr "u0" ]}
           sample_logged.2 sample_logged.1 sample_reverted.1.1).
  - reflexivity.
  - reflexivity.
  - reflexivity.
  - reflexivity.
Defined.

(** ** C6 *)

Lemma revert_appends_one_entry_witness :
  ∃ tr' e,
    HISTORY_TRACKER sample_reverted.1.2 = Some tr' ∧
    get_history tr' = get_history sample_logged.1 ++ [e] ∧
    length (get_history tr') = S (length (get_history sample_logged.1)) ∧
    (∀ i, i < length (get_history sample_logged.1) →
       get_history tr' !! i = get_history sample_logged.1 !! i) ∧
    e !! "action" = Some "Revert" ∧
    e !! "description" = Some "Reverted to state from an earlier action.".
Proof.
  apply (revert_appends_one_entry sample_uuid sample_now sample_config
           {[ "id" := PStr "u0" ]} sample_logged.2 sample_reverted.1.1
           sample_reverted.1.2 sample_reverted.2 sample_logged.1);
    reflexivity.
Defined.

(** ** C7 *)

Lemma log_changes_history_witness :
  ∃ ids tr w',
    log_changes sample_uuid sample_now
      [("Upload", "first", Some 0); ("Note", "second", None)]
      init sample_world = Ok ((ids, tr), w') ∧
    length (get_history tr) = 2 ∧
    entry_ids (get_history tr) = ids ∧
    NoDup ids.
Proof.
  destruct (log_changes_history sample_uuid sample_now sample_uuid_fresh
              [("Upload", "first", Some 0); ("Note", "second", None)]
              sample_world) as [(ids & tr & w' & H1 & H2 & H3 & H4 & _) _].
  - intros action description a [H|H]%elem_of_cons.
    + injection H as _ _ ->. by exists table_2x2.
    + apply list_elem_of_singleton in H. discriminate H.
  - by exists ids, tr, w'.
Defined.

(** ** C8 *)

(** C8, as stated, fails in one direction: on the imported ledger the entry
    matches and carries a [snapshot_id], and [revert_to_version] still
    returns [None]. *)
Lemma revert_not_found_with_snapshot_id :
  revert_to_version sample_imported (PStr "e1") sample_world
    = Ok (None, sample_world) ∧
  ¬ (find_entry (history sample_imported) (PStr "e1") = Ok None ∨
     ∃ e, find_entry (history sample_imported) (PStr "e1") = Ok (Some e) ∧
          e !! "snapshot_id" = None).
Proof.
  split; [reflexivity|]. intros [H|(e & H & He)].
  - discriminate H.
  - injection H as <-. discriminate He.
Qed.

(** ** C9 *)

Lemma log_change_without_snapshot_witness :
  ∃ id e tr' w',
    log_change sample_uuid sample_now sample_logged.1 "Note" "no table" None
      sample_logged.2 = Ok ((id, tr'), w') ∧
    get_history tr' = get_history sample_logged.1 ++ [e] ∧
    e !! "snapshot_id" = None ∧
    snapshots tr' = snapshots sample_logged.1 ∧
    id ∉ entry_ids (get_history sample_logged.1).
Proof.
  destruct (log_change_without_snapshot sample_uuid sample_now
              sample_uuid_fresh sample_logged.1 "Note" "no table"
              sample_logged.2)
    as (id & e & tr' & w' & H1 & H2 & _ & _ & _ & H3 & H4 & _ & _ & H5).
  exists id, e, tr', w'. repeat split; try done. apply H5.
  apply (ledger_ids_drawn_reachable _ sample_now), sample_logged_reachable.
Defined.

(** ** C10 *)

Lemma revert_dangling_snapshot_witness :
  revert_to_version sample_imported (PStr "e1") sample_world
  = Ok (None, sample_world).
Proof.
  apply (revert_dangling_snapshot sample_imported (PStr "e1") sample_world
           imported_entry "s1"); reflexivity.
Defined.

(** * Further properties of the tracker and of its callers *)

Section Further.

Variable uuid_str : nat → string.
Variable now_iso : nat → string.

(** [uuid.uuid4()] does not return the same value twice. *)
Hypothesis uuid_fresh : ∀ i j, uuid_str i = uuid_str j → i = j.

(** ** The invariant of the tracker *)

Lemma tracker_invariant_init w : tracker_invariant uuid_str init w.
Proof.
  repeat split; simpl; try done; try (by constructor);
    try (intros ? He; by apply elem_of_nil in He);
    try (intros ? ? He; by apply elem_of_nil in He).
Qed.

Lemma tracker_invariant_world tr w w' :
  tracker_invariant uuid_str tr w →
  uuid_draws w ≤ uuid_draws w' →
  (∀ a, is_Some (heap w !! a) → is_Some (heap w' !! a)) →
  tracker_invariant uuid_str tr w'.
Proof.
  intros (Hl & Hs & [Hid Halive] & Hr & Hm & Hnd) Hle Hh.
  split; [by eapply ledger_ids_drawn_mono|]. split.
  { intros sid a Ha. destruct (Hs sid a Ha) as (j & Hj & ->).
    exists j. split; [lia|done]. }
  split; [split; [done|]|].
  { intros sid a Ha. by eapply Hh, Halive. }
  split; [by eapply ledger_resolves_heap|done].
Qed.

Lemma snapshot_ids_snoc (l : list entry) e :
  snapshot_ids (l ++ [e]) =
  snapshot_ids l ++ match e !! "snapshot_id" with Some s => [s] | None => [] end.
Proof.
  unfold snapshot_ids. rewrite omap_app. simpl. by destruct (e !! "snapshot_id").
Qed.

Lemma entry_ids_snoc (l : list entry) e id :
  e !! "id" = Some id → entry_ids (l ++ [e]) = entry_ids l ++ [id].
Proof.
  intros He. unfold entry_ids. rewrite omap_app. simpl. by rewrite He.
Qed.

Lemma tracker_invariant_log_change tr action description data w id tr' w' :
  log_change uuid_str now_iso tr action description data w
    = Ok ((id, tr'), w') →
  tracker_invariant uuid_str tr w → tracker_invariant uuid_str tr' w'.
Proof.
  intros Hlog (Hl & Hs & [Hid Halive] & Hr & [Hnd Hdom] & Hndi).
  pose proof (ledger_ids_drawn_log_change _ _ _ _ _ _ _ _ _ _ Hlog Hl) as Hl'.
  pose proof (ledger_resolves_log_change _ _ _ _ _ _ _ _ _ _ Hlog Hr) as Hr'.
  pose proof (ledger_ids_drawn_not_in _ uuid_fresh _ _ (uuid_draws w) Hl
                (le_n _)) as Hnew.
  pose proof (log_change_draws _ _ _ _ _ _ _ _ _ _ Hlog) as [Hlt Hheap].
  apply log_change_inv in Hlog as (-> & e & Hh & Hide & _ & _ & Hd).
  assert (NoDup (entry_ids (history tr'))) as Hndi'.
  { rewrite Hh, (entry_ids_snoc _ _ _ Hide). apply NoDup_app.
    split; [done|]. split; [|apply NoDup_singleton].
    intros x Hx ->%list_elem_of_singleton. done. }
  assert (∀ e0, e0 ∈ history tr' → is_Some (e0 !! "id")) as Hid'.
  { intros e0 He0. destruct (Hl' e0 He0) as (j & _ & Hj). by eexists. }
  split; [done|]. destruct data as [a|].
  - destruct Hd as (df & Ha & Hse & Hsn & Hhp & Hdr).
    split.
    { intros sid b. rewrite Hsn.
      intros [[<- _]|[_ Hb]]%lookup_insert_Some.
      - exists (S (uuid_draws w)). split; [lia|done].
      - destruct (Hs sid b Hb) as (j & Hj & ->). exists j. split; [lia|done]. }
    split; [split; [done|]|].
    { intros sid b. rewrite Hsn, Hhp.
      intros [[_ <-]|[_ Hb]]%lookup_insert_Some.
      - exists df. by apply list_lookup_middle.
      - by apply heap_app_is_Some, (Halive sid). }
    split; [done|]. split; [|done]. split.
    + rewrite Hh, snapshot_ids_snoc, Hse. apply NoDup_app.
      split; [done|]. split; [|apply NoDup_singleton].
      intros x Hx ->%list_elem_of_singleton.
      assert (uuid_str (S (uuid_draws w)) ∈ dom (snapshots tr)) as Hin
        by (rewrite Hdom; by apply elem_of_list_to_set).
      apply elem_of_dom in Hin as [b Hb].
      destruct (Hs _ _ Hb) as (j & Hj & Heq%uuid_fresh). lia.
    + rewrite Hh, snapshot_ids_snoc, Hse, Hsn, dom_insert_L, Hdom.
      rewrite list_to_set_app_L. simpl.
      rewrite union_empty_r_L. apply (comm_L (∪)).
  - destruct Hd as (Hse & Hsn & Hhp & Hdr).
    split.
    { intros sid b. rewrite Hsn. intros Hb.
      destruct (Hs sid b Hb) as (j & Hj & ->). exists j. split; [lia|done]. }
    split; [split; [done|]|].
    { intros sid b. rewrite Hsn, Hhp. apply Halive. }
    split; [done|]. split; [|done].
    unfold store_matches_ledger.
    rewrite Hh, snapshot_ids_snoc, Hse, Hsn, app_nil_r. done.
Qed.

Lemma tracker_invariant_step st st' :
  step uuid_str now_iso false st st' →
  tracker_invariant uuid_str st.1 st.2 →
  tracker_invariant uuid_str st'.1 st'.2.
Proof.
  intros Hstep. destruct Hstep as
    [tr w action description data id tr' w' Hlog
    |tr w hid r w' Hrev | tr w | tr w hd Himp | tr w a df | tr w df
    |tr w u w' Hu | tr w t w' Ht]; simpl; intros Hinv.
  - by eapply tracker_invariant_log_change.
  - apply revert_to_version_inv in Hrev. destruct r as [c|].
    + destruct Hrev as (df & _ & _ & ->).
      eapply tracker_invariant_world; [done|done|].
      simpl. intros ?. apply heap_app_is_Some.
    + by destruct Hrev as [-> _].
  - apply tracker_invariant_init.
  - done.
  - eapply tracker_invariant_world; [done|done|].
    simpl. intros ?. apply heap_insert_is_Some.
  - eapply tracker_invariant_world; [done|done|].
    simpl. intros ?. apply heap_app_is_Some.
  - injection Hu as _ <-. eapply tracker_invariant_world; [done|simpl; lia|done].
  - injection Ht as _ <-. by eapply tracker_invariant_world.
Qed.

Lemma tracker_invariant_reachable tr w :
  reachable uuid_str now_iso false tr w → tracker_invariant uuid_str tr w.
Proof.
  induction 1 as [w|tr w tr' w' _ IH Hstep].
  - apply tracker_invariant_init.
  - by apply (tracker_invariant_step _ _ Hstep).
Qed.

(** ** What the invariant gives *)

Lemma entry_ids_length (l : list entry) :
  (∀ e, e ∈ l → is_Some (e !! "id")) → length (entry_ids l) = length l.
Proof.
  induction l as [|x l IH]; [done|]. intros H.
  destruct (H x) as [i Hi]; [left|]. unfold entry_ids in *. simpl.
  rewrite Hi. simpl. f_equal. apply IH. intros e He. apply H. by right.
Qed.

Lemma entry_ids_NoDup_inj (l : list entry) e e' i :
  NoDup (entry_ids l) → e ∈ l → e' ∈ l →
  e !! "id" = Some i → e' !! "id" = Some i → e = e'.
Proof.
  induction l as [|x l IH]; [by intros _ ?%elem_of_nil|].
  intros Hnd [->|He]%elem_of_cons [->|He']%elem_of_cons Hi Hi'; [done| | |].
  - exfalso. unfold entry_ids in Hnd. simpl in Hnd. rewrite Hi in Hnd.
    apply NoDup_cons in Hnd as [Hni _]. apply Hni, list_elem_of_omap.
    by exists e'.
  - exfalso. unfold entry_ids in Hnd. simpl in Hnd. rewrite Hi' in Hnd.
    apply NoDup_cons in Hnd as [Hni _]. apply Hni, list_elem_of_omap.
    by exists e.
  - apply IH; try done. unfold entry_ids in *. simpl in Hnd.
    destruct (x !! "id"); [by apply NoDup_cons in Hnd as [_ ?]|done].
Qed.

(** X1: in every state a fresh tracker reaches without [import_history],
    whatever the interleaving of [log_change], reverts and clears, every
    entry of the ledger has an id and no two entries have the same id. *)
Theorem entry_ids_distinct_reachable tr w :
  reachable uuid_str now_iso false tr w →
  NoDup (entry_ids (get_history tr)) ∧
  length (entry_ids (get_history tr)) = length (get_history tr).
Proof.
  intros (_ & _ & [Hid _] & _ & _ & Hnd)%tracker_invariant_reachable.
  split; [done|]. by apply entry_ids_length.
Qed.

(** X2: in every such state the snapshot store and the ledger go together
    one to one: the keys of the store are exactly the snapshot ids carried
    by the entries, no two entries carry the same one, and so the store
    holds as many snapshots as there are entries logged with a table. *)
Theorem store_matches_ledger_reachable tr w :
  reachable uuid_str now_iso false tr w →
  store_matches_ledger tr ∧
  size (snapshots tr) = length (snapshot_ids (get_history tr)).
Proof.
  intros (_ & _ & _ & _ & [Hnd Hdom] & _)%tracker_invariant_reachable.
  split; [done|]. unfold get_history.
  by rewrite <- size_dom, Hdom, size_list_to_set.
Qed.

(** X4: in every such state [revert_to_version] returns a table for an id
    exactly when the ledger has an entry with that id that was logged with a
    table; an entry logged without one can never be reverted to. *)
Theorem revert_succeeds_iff tr w i :
  reachable uuid_str now_iso false tr w →
  (∃ c w', revert_to_version tr (PStr i) w = Ok (Some c, w')) ↔
  (∃ e, e ∈ get_history tr ∧ e !! "id" = Some i ∧
        is_Some (e !! "snapshot_id")).
Proof.
  intros (_ & _ & [Hid Halive] & Hres & _ & Hnd)%tracker_invariant_reachable.
  split.
  - intros (c & w' & (T & (e & sid & a & Hf & Hs & _) & _)%revert_to_version_inv).
    apply find_entry_Some_inv in Hf as (He & j & Hj & [= ->]).
    exists e. by rewrite Hs.
  - intros (e & He & Hi & [sid Hs]). unfold get_history in He.
    destruct (Hres e sid He Hs) as (a & df & Ha & Hdf & _).
    destruct (resolves_or_unresolved tr w (PStr i) (conj Hid Halive))
      as [(T & e' & sid' & a' & Hf & Hs' & Ha' & HT)|[Hf|(e' & Hf & Hun)]].
    + eexists _, _. by eapply revert_to_version_found.
    + destruct (find_entry_None_inv _ _ Hf e He) as (j & Hj & Hne).
      rewrite Hi in Hj. by injection Hj as <-.
    + apply find_entry_Some_inv in Hf as (He' & j & Hj & [= <-]).
      assert (e = e') as <- by by eapply entry_ids_NoDup_inj.
      destruct Hun as [Hn|(sid' & Hs' & Hn)]; [by rewrite Hs in Hn|].
      rewrite Hs in Hs'. injection Hs' as <-. by rewrite Ha in Hn.
Qed.

(** ** Clearing, exporting and importing *)

(** X5: after [clear_history] the ledger and the store are empty, so
    [revert_to_version] returns [None] for every id, the ids of the entries
    that were cleared included, and the handler answers 404 to every
    non-empty id without changing anything. *)
Theorem clear_history_forgets tr hid w :
  get_history (clear_history tr) = [] ∧
  (∀ sid, get_snapshot (clear_history tr) sid = None) ∧
  revert_to_version (clear_history tr) hid w = Ok (None, w) ∧
  (∀ cur data,
     default PNone (data !! "id") = hid → truthy hid = true →
     revert_to_history_version uuid_str now_iso
       {| MAIN_DF := Some cur;
          HISTORY_TRACKER := Some (clear_history tr) |} data w =
     Ok ((jsonify_error "History snapshot not found." 404,
          {| MAIN_DF := Some cur;
             HISTORY_TRACKER := Some (clear_history tr) |}), w)).
Proof.
  split; [done|]. split; [intros sid; apply lookup_empty|].
  split; [done|]. intros cur data <- Hid.
  by eapply revert_route_not_found.
Qed.

(** X6: [import_history] of what [export_history] gave brings back the
    ledger as it was, entry for entry, and an empty snapshot store: when all
    entries have an id, [revert_to_version] then returns [None] for every id,
    also for entries that could be reverted to before the export.  A
    [history_data] without ['history'] imports as an empty ledger. *)
Theorem export_import_round_trip tr other :
  get_history (import_history other (Some (export_history tr)))
    = get_history tr ∧
  snapshots (import_history other (Some (export_history tr))) = ∅ ∧
  import_history other None = clear_history other ∧
  ((∀ e, e ∈ get_history tr → is_Some (e !! "id")) →
   ∀ hid w,
     revert_to_version (import_history other (Some (export_history tr)))
       hid w = Ok (None, w)).
Proof.
  split; [done|]. split; [done|]. split; [done|].
  intros Hid hid w. by apply revert_after_import.
Qed.

(** ** What [log_change] stores and what it leaves alone *)

(** X7: [log_change] with a table stores a copy under the snapshot id of
    the entry it appends: [get_snapshot] of that id is an object that did not
    exist before the call, hence different from the table that was passed
    and from every table anyone holds, and its content is the content the
    table had at the call, whatever is done to the table afterwards. *)
Theorem log_change_stores_fresh_copy
    tr action description a w T id tr' w' :
  content w a = Some T →
  log_change uuid_str now_iso tr action description (Some a) w
    = Ok ((id, tr'), w') →
  ∃ e sid c,
    last (get_history tr') = Some e ∧
    e !! "id" = Some id ∧ e !! "snapshot_id" = Some sid ∧
    get_snapshot tr' sid = Some c ∧
    content w c = None ∧ c ≠ a ∧
    content w' c = Some T ∧
    content w' a = Some T ∧
    ∀ df, content (mutate a df w') c = Some T.
Proof.
  unfold content, get_snapshot. intros Ha Hlog.
  rewrite (log_change_with_table _ _ _ _ _ _ _ _ Ha) in Hlog.
  injection Hlog as <- <- <-. simpl.
  eexists _, _, (length (heap w)). rewrite last_snoc.
  assert (length (heap w) ≠ a) as Hne
    by (apply lookup_lt_Some in Ha; lia).
  split; [done|]. split; [done|]. split; [apply lookup_insert_eq|].
  split; [apply lookup_insert_eq|]. split; [by apply lookup_ge_None|].
  split; [done|]. split; [by apply list_lookup_middle|].
  split; [by apply lookup_app_l_Some|].
  intros df. rewrite list_lookup_insert_ne; [|done].
  by apply list_lookup_middle.
Qed.

(** X8: [log_change] leaves every other entry as revertable as it was: on a
    store whose keys [uuid4] produced, an id that resolved to the content
    [T] before the call resolves to [T] after it. *)
Theorem log_change_keeps_other_reverts
    tr action description data w id tr' w' hid T :
  store_ids_drawn uuid_str tr w →
  id_resolves tr w hid T →
  log_change uuid_str now_iso tr action description data w
    = Ok ((id, tr'), w') →
  id_resolves tr' w' hid T.
Proof.
  unfold id_resolves, get_snapshot, content.
  intros Hs (e & sid & a & Hf & Hse & Ha & HT) Hlog.
  apply log_change_inv in Hlog as (_ & e' & Hh & _ & _ & _ & Hd).
  exists e, sid, a. rewrite Hh. split; [by apply find_entry_app_Some|].
  split; [done|]. destruct data as [b|].
  - destruct Hd as (df & _ & _ & -> & -> & _). split.
    + rewrite lookup_insert_ne; [done|]. intros <-.
      destruct (Hs _ _ Ha) as (j & Hj & Heq%uuid_fresh). lia.
    + by apply lookup_app_l_Some.
  - by destruct Hd as (_ & -> & -> & _).
Qed.

Lemma extends_app w df : extends w (with_heap (heap w ++ [df]) w).
Proof. intros a x Ha. by apply lookup_app_l_Some. Qed.

Lemma extends_trans w1 w2 w3 : extends w1 w2 → extends w2 w3 → extends w1 w3.
Proof. intros H1 H2 a df Ha. by apply H2, H1. Qed.

Lemma log_change_extends tr action description data w id tr' w' :
  log_change uuid_str now_iso tr action description data w
    = Ok ((id, tr'), w') →
  extends w w'.
Proof.
  intros (_ & e & _ & _ & _ & _ & Hd)%log_change_inv a x Ha.
  unfold content in *. destruct data as [b|].
  - destruct Hd as (df & _ & _ & _ & -> & _). by apply lookup_app_l_Some.
  - by destruct Hd as (_ & _ & -> & _).
Qed.

Lemma revert_to_version_extends tr hid w r w' :
  revert_to_version tr hid w = Ok (r, w') → extends w w'.
Proof.
  intros H%revert_to_version_inv. destruct r as [c|].
  - destruct H as (T & _ & _ & ->). apply extends_app.
  - destruct H as [-> _]. by intros a df.
Qed.

(** X9: the tracker and the revert handler never change a table that
    exists: after [log_change], after [revert_to_version] and after the
    handler every object has the content it had, the table passed to
    [log_change] and the table that was current before a revert included;
    a revert installs a new object instead. *)
Theorem existing_tables_untouched w :
  (∀ tr action description data id tr' w',
     log_change uuid_str now_iso tr action description data w
       = Ok ((id, tr'), w') → extends w w') ∧
  (∀ tr hid r w', revert_to_version tr hid w = Ok (r, w') → extends w w') ∧
  (∀ config data resp config' w',
     revert_to_history_version uuid_str now_iso config data w
       = Ok ((resp, config'), w') →
     extends w w' ∧
     (status_code resp = 200 →
      ∃ new_df, MAIN_DF config' = Some new_df ∧ content w new_df = None)).
Proof.
  split; [intros; by eapply log_change_extends|].
  split; [intros; by eapply revert_to_version_extends|].
  intros config data resp config' w' Hr.
  unfold revert_to_history_version in Hr.
  destruct (HISTORY_TRACKER config) as [tr|]; simpl in Hr;
    [|injection Hr as <- <- <-; split; [by intros a df|simpl; discriminate]].
  destruct (MAIN_DF config) as [cur|]; simpl in Hr;
    [|injection Hr as <- <- <-; split; [by intros a df|simpl; discriminate]].
  destruct (truthy _); simpl in Hr;
    [|injection Hr as <- <- <-; split; [by intros a df|simpl; discriminate]].
  unfold mbind, M_bind at 1 in Hr.
  destruct (revert_to_version _ _ _) as [[[c|] w1]|] eqn:Hrev; [| |done].
  - unfold mbind, M_bind at 1 in Hr.
    destruct (log_change _ _ _ _ _ _ _) as [[[id tr1] w2]|] eqn:Hlog; [|done].
    injection Hr as <- <- <-. split.
    + eapply extends_trans; [by eapply revert_to_version_extends|].
      by eapply log_change_extends.
    + intros _. exists c. split; [done|].
      apply revert_to_version_inv in Hrev as (T & _ & -> & _).
      by apply lookup_ge_None.
  - injection Hr as <- <- <-. split; [|simpl; discriminate].
    by eapply revert_to_version_extends.
Qed.

(** ** The scan of [revert_to_version] *)

Lemma find_entry_Raise_iff (l : list entry) hid x :
  find_entry l hid = Raise x ↔
  x = KeyError "id" ∧
  ∃ l1 e l2, l = l1 ++ e :: l2 ∧ e !! "id" = None ∧
    ∀ e', e' ∈ l1 → ∃ j, e' !! "id" = Some j ∧ PStr j ≠ hid.
Proof.
  induction l as [|y l IH]; simpl.
  { split; [done|]. intros (_ & l1 & e & l2 & Hl & _). by destruct l1. }
  unfold getitem. destruct (y !! "id") as [i|] eqn:Hi.
  - destruct (decide (PStr i = hid)) as [Heq|Hne].
    + split; [done|]. intros (_ & [|z l1] & e & l2 & Hl & He & Hl1).
      * injection Hl as -> _. by rewrite Hi in He.
      * injection Hl as -> _. destruct (Hl1 z) as (j & Hj & Hne); [left|].
        rewrite Hi in Hj. by injection Hj as <-.
    + rewrite IH. split.
      * intros (-> & l1 & e & l2 & -> & He & Hl1). split; [done|].
        exists (y :: l1), e, l2. split; [done|]. split; [done|].
        intros e' [->|He']%elem_of_cons; [by exists i|by apply Hl1].
      * intros (-> & [|z l1] & e & l2 & Hl & He & Hl1).
        -- injection Hl as -> _. by rewrite Hi in He.
        -- injection Hl as -> ->. split; [done|]. exists l1, e, l2.
           split; [done|]. split; [done|]. intros e' He'. apply Hl1. by right.
  - split.
    + intros [= <-]. split; [done|]. exists [], y, l. split; [done|].
      split; [done|]. by intros e' ?%elem_of_nil.
    + by intros (-> & _).
Qed.

(** X10: [revert_to_version] raises [KeyError('id')] exactly when the ledger
    has an entry without ['id'] and no entry before it carries the id looked
    for; no other key is ever missed. *)
Theorem revert_raises_KeyError_iff tr hid w k :
  revert_to_version tr hid w = Raise (KeyError k) ↔
  k = "id" ∧
  ∃ l1 e l2, history tr = l1 ++ e :: l2 ∧ e !! "id" = None ∧
    ∀ e', e' ∈ l1 → ∃ j, e' !! "id" = Some j ∧ PStr j ≠ hid.
Proof.
  split.
  - unfold revert_to_version, getitem.
    unfold mbind, M_bind, mret, M_ret, lift, df_copy. simpl.
    destruct (find_entry (history tr) hid) as [[e|]|x] eqn:Hf; simpl.
    + destruct (e !! "snapshot_id") as [sid|] eqn:Hs.
      * rewrite bool_decide_eq_false_2; [|by intros ->].
        rewrite bool_decide_eq_false_2; [|done]. simpl.
        destruct (get_snapshot tr sid) as [a|]; simpl; [|done].
        by destruct (heap w !! a).
      * rewrite (bool_decide_eq_true_2 (None = None)); [|done].
        by rewrite orb_true_r.
    + done.
    + intros [= ->]. apply find_entry_Raise_iff in Hf as ([= <-] & H). done.
  - intros (-> & H).
    assert (find_entry (history tr) hid = Raise (KeyError "id")) as Hf
      by by apply find_entry_Raise_iff.
    unfold revert_to_version. unfold mbind, M_bind, lift. by rewrite Hf.
Qed.


(** ** The listing of [GET /history] *)

(** X12: [GET /history] lists the ledger newest first: the listing has the
    length of the ledger, its [i]-th item is the entry logged [i] calls
    before the last one, and reversing it gives [get_history] back; without
    a tracker the listing is empty.  The answer is always a success with
    status 200. *)
Theorem history_listing_newest_first config :
  history_routes.history_status_code (history_routes.get_history config)
    = 200 ∧
  history_routes.history_status (history_routes.get_history config)
    = "success" ∧
  (HISTORY_TRACKER config = None →
   history_routes.history_items (history_routes.get_history config) = []) ∧
  (∀ tr, HISTORY_TRACKER config = Some tr →
     let items :=
       history_routes.history_items (history_routes.get_history config) in
     length items = length (get_history tr) ∧
     reverse items = get_history tr ∧
     head items = last (get_history tr) ∧
     ∀ i, i < length (get_history tr) →
       items !! i = get_history tr !! (length (get_history tr) - S i)).
Proof.
  unfold history_routes.get_history.
  destruct (HISTORY_TRACKER config) as [tr0|]; simpl;
    (split; [done|]); (split; [done|]); (split; [done|]); [|done].
  intros tr [= <-]. split; [apply length_reverse|].
  split; [apply reverse_involutive|]. split; [apply head_reverse|].
  intros i Hi. by apply reverse_lookup.
Qed.

(** X13: after a [log_change] the listing of [GET /history] is the new
    entry, carrying the returned id, followed by the listing as it was. *)
Theorem history_listing_after_log_change
    config tr action description data w id tr' w' :
  HISTORY_TRACKER config = Some tr →
  log_change uuid_str now_iso tr action description data w
    = Ok ((id, tr'), w') →
  ∃ e,
    history_routes.history_items
      (history_routes.get_history
         {| MAIN_DF := MAIN_DF config; HISTORY_TRACKER := Some tr' |})
    = e :: history_routes.history_items (history_routes.get_history config) ∧
    e !! "id" = Some id ∧ e !! "action" = Some action ∧
    e !! "description" = Some description.
Proof.
  intros Htr (_ & e & Hh & Hid & Ha & Hd & _)%log_change_inv.
  exists e. unfold history_routes.get_history, get_history. rewrite Htr. simpl.
  by rewrite Hh, reverse_snoc.
Qed.

(** X14: after a revert that succeeded the listing of [GET /history] is the
    entry of the revert followed by the listing as it was before. *)
Theorem history_listing_after_revert config data w resp config' w' :
  revert_to_history_version uuid_str now_iso config data w
    = Ok ((resp, config'), w') →
  status_code resp = 200 →
  ∃ e,
    history_routes.history_items (history_routes.get_history config')
    = e :: history_routes.history_items (history_routes.get_history config) ∧
    e !! "action" = Some "Revert" ∧ is_Some (e !! "snapshot_id").
Proof.
  intros Hr Hok.
  destruct (revert_route_success_inv _ _ _ _ _ _ _ _ Hr Hok)
    as (tr & cur & c & w1 & id & tr1 & Htr & _ & _ & _ & Hlog & _ & ->).
  apply log_change_inv in Hlog
    as (_ & e & Hh & _ & Ha & _ & df & _ & Hs & _).
  exists e. unfold history_routes.get_history, get_history. rewrite Htr. simpl.
  rewrite Hh, reverse_snoc. by rewrite Hs.
Qed.

(** ** Loading a session *)

Abbreviation load_session := (session_routes.load_session uuid_str now_iso).

Lemma load_session_with_tracker config filename_field records w tr :
  HISTORY_TRACKER config = Some tr →
  ∃ id tr1 w1,
    log_change uuid_str now_iso (clear_history tr) "Session Load"
      ("Loaded session file '" +:+
         session_routes.filename_or_default filename_field +:+ "'")
      (Some (length (heap w))) (with_heap (heap w ++ [records]) w)
      = Ok ((id, tr1), w1) ∧
    load_session config filename_field records w =
    Ok (({| session_routes.load_status_code := 200;
            session_routes.load_status := "success";
            session_routes.load_message := "Session loaded successfully";
            session_routes.load_filename :=
              session_routes.filename_or_default filename_field;
            session_routes.load_rows := n_rows records;
            session_routes.load_columns := n_cols records |},
         {| MAIN_DF := Some (length (heap w));
            HISTORY_TRACKER := Some tr1 |},
         session_routes.filename_or_default filename_field), w1).
Proof.
  intros Htr.
  destruct (log_change_returns uuid_str now_iso (clear_history tr)
    "Session Load"
    ("Loaded session file '" +:+
       session_routes.filename_or_default filename_field +:+ "'")
    (Some (length (heap w))) (with_heap (heap w ++ [records]) w))
    as (id & tr1 & w1 & Hlog).
  { intros a [= <-]. exists records. by apply list_lookup_middle. }
  exists id, tr1, w1. split; [done|].
  unfold session_routes.load_session. rewrite Htr.
  unfold mbind, M_bind at 1. unfold new_object at 1.
  unfold mbind, M_bind at 1. unfold catch.
  unfold M_bind. unfold addr in *. by rewrite Hlog.
Qed.

(** X15: [load_session] installs a new table with the loaded content and
    answers with its row and column counts; with a tracker, the ledger
    afterwards holds exactly one entry, the ["Session Load"] entry naming the
    file, the store holds exactly one snapshot, a copy of the loaded table
    in an object of its own, and no table that existed is changed; without a
    tracker none is created. *)
Theorem load_session_resets_history config filename_field records w :
  (∀ tr, HISTORY_TRACKER config = Some tr →
     ∃ resp tr1 w1 df e sid c,
       load_session config filename_field records w =
       Ok ((resp, {| MAIN_DF := Some df; HISTORY_TRACKER := Some tr1 |},
            session_routes.filename_or_default filename_field), w1) ∧
       content w df = None ∧ content w1 df = Some records ∧ extends w w1 ∧
       get_history tr1 = [e] ∧
       e !! "action" = Some "Session Load" ∧
       e !! "description" =
         Some ("Loaded session file '" +:+
                 session_routes.filename_or_default filename_field +:+ "'") ∧
       e !! "snapshot_id" = Some sid ∧
       snapshots tr1 = {[ sid := c ]} ∧
       c ≠ df ∧ content w c = None ∧ content w1 c = Some records ∧
       session_routes.load_status_code resp = 200 ∧
       session_routes.load_filename resp
         = session_routes.filename_or_default filename_field ∧
       session_routes.load_rows resp = n_rows records ∧
       session_routes.load_columns resp = n_cols records) ∧
  (HISTORY_TRACKER config = None →
   ∃ resp,
     load_session config filename_field records w =
     Ok ((resp, {| MAIN_DF := Some (length (heap w));
                   HISTORY_TRACKER := None |},
          session_routes.filename_or_default filename_field),
         with_heap (heap w ++ [records]) w) ∧
     session_routes.load_rows resp = n_rows records ∧
     session_routes.load_columns resp = n_cols records).
Proof.
  split.
  - intros tr Htr.
    destruct (load_session_with_tracker config filename_field records w tr Htr)
      as (id & tr1 & w1 & Hlog & Hload).
    assert (heap (with_heap (heap w ++ [records]) w) !! length (heap w)
            = Some records) as Hdf by (by apply list_lookup_middle).
    rewrite (log_change_with_table _ _ _ _ _ _ _ _ Hdf) in Hlog.
    injection Hlog as <- <- <-.
    eexists _, _, _, (length (heap w)), _, _, (S (length (heap w))).
    split; [exact Hload|]. unfold content, get_history. simpl.
    split; [by apply lookup_ge_None|].
    split; [apply lookup_app_l_Some; by apply list_lookup_middle|].
    split.
    { intros a df Ha. unfold content in *. simpl.
      by apply lookup_app_l_Some, lookup_app_l_Some. }
    split; [done|]. split; [done|]. split; [done|].
    split; [apply lookup_insert_eq|].
    split; [by rewrite length_app, Nat.add_1_r|].
    split; [lia|]. split; [apply lookup_ge_None; lia|].
    split; [|done]. apply list_lookup_middle. by rewrite length_app, Nat.add_1_r.
  - intros Htr. eexists. unfold session_routes.load_session. rewrite Htr.
    split; [reflexivity|done].
Qed.

(** [str(uuid.uuid4())] is not the empty string. *)
Hypothesis uuid_nonempty : ∀ k, uuid_str k ≠ EmptyString.

(** X16: after [load_session] with a tracker, whatever is logged, reverted
    or edited in place on the current table afterwards, a revert request for
    the id of the ["Session Load"] entry succeeds and installs a table with
    the content that was loaded. *)
Theorem load_edit_revert_restores
    config filename_field records w tr resp config1 name w1 tr1 tr2 w2 cur2 :
  HISTORY_TRACKER config = Some tr →
  load_session config filename_field records w
    = Ok ((resp, config1, name), w1) →
  HISTORY_TRACKER config1 = Some tr1 →
  rtc (later_step uuid_str now_iso) (tr1, w1) (tr2, w2) →
  ∃ e id,
    get_history tr1 = [e] ∧ e !! "id" = Some id ∧
    ∃ resp2 tr3 w3 new_df,
      revert_to_history_version uuid_str now_iso
        {| MAIN_DF := Some cur2; HISTORY_TRACKER := Some tr2 |}
        {[ "id" := PStr id ]} w2
      = Ok ((resp2, {| MAIN_DF := Some new_df;
                       HISTORY_TRACKER := Some tr3 |}), w3) ∧
      status_code resp2 = 200 ∧ content w3 new_df = Some records.
Proof.
  intros Htr Hload Htr1 Hlater.
  destruct (load_session_with_tracker config filename_field records w tr Htr)
    as (id & tr1' & w1' & Hlog & Hload').
  rewrite Hload in Hload'. injection Hload' as -> -> -> ->.
  simpl in Htr1. injection Htr1 as <-.
  assert (content (with_heap (heap w ++ [records]) w) (length (heap w))
          = Some records) as Hdf by (by apply list_lookup_middle).
  pose proof (log_change_keeps_snapshot uuid_str now_iso (clear_history tr)
    _ _ _ _ _ _ _ _ eq_refl Hdf Hlog) as Hk.
  apply (keeps_snapshot_later uuid_str now_iso uuid_fresh _ _ _ _ Hlater) in Hk.
  apply keeps_snapshot_resolves in Hk. simpl in Hk.
  pose proof Hlog as (-> & e & Hh & Hid & _)%log_change_inv.
  exists e, (uuid_str (uuid_draws (with_heap (heap w ++ [records]) w))).
  split; [unfold get_history; by rewrite Hh|]. split; [done|].
  edestruct (revert_route_resolves uuid_str now_iso
    {| MAIN_DF := Some cur2; HISTORY_TRACKER := Some tr2 |}
    {[ "id" := PStr (uuid_str (uuid_draws (with_heap (heap w ++ [records]) w))) ]}
    w2 tr2 cur2 records)
    as (tr3 & w3 & e3 & Hr & Hc & _); [done|done| | |].
  - rewrite lookup_singleton_eq. by apply truthy_uuid.
  - by rewrite lookup_singleton_eq.
  - by eexists _, tr3, w3, _.
Qed.

(** ** The handler, from what the ledger holds *)

Lemma find_entry_Some_iff (l : list entry) hid e :
  find_entry l hid = Ok (Some e) ↔ first_match l hid e.
Proof.
  split.
  - induction l as [|x l IH]; simpl; [done|]. unfold getitem.
    destruct (x !! "id") as [i|] eqn:Hi; [|done].
    destruct (decide (PStr i = hid)) as [<-|Hne].
    + intros [= <-]. exists [], l, i. split; [done|]. split; [done|].
      split; [done|]. by intros e' ?%elem_of_nil.
    + intros (l1 & l2 & j & -> & Hj & -> & Hl1)%IH.
      exists (x :: l1), l2, j. split; [done|]. split; [done|].
      split; [done|]. intros e' [->|He']%elem_of_cons; [by exists i|].
      by apply Hl1.
  - intros (l1 & l2 & i & -> & Hi & -> & Hl1).
    rewrite find_entry_app_None; [|by apply find_entry_None].
    simpl. unfold getitem. rewrite Hi. by rewrite decide_True.
Qed.

Lemma find_entry_None_iff (l : list entry) hid :
  find_entry l hid = Ok None ↔ no_match l hid.
Proof.
  split; [intros H e He; by eapply find_entry_None_inv|apply find_entry_None].
Qed.

Lemma entry_resolves_iff tr w hid T :
  entry_resolves tr w hid T ↔ id_resolves tr w hid T.
Proof.
  unfold entry_resolves, id_resolves.
  split; intros (e & sid & a & Hf & H); exists e, sid, a;
    (split; [by apply find_entry_Some_iff|done]).
Qed.

Lemma entry_unresolved_iff tr hid :
  entry_unresolved tr hid ↔ id_unresolved tr hid.
Proof.
  unfold entry_unresolved, id_unresolved. rewrite find_entry_None_iff.
  split; (intros [H|(e & Hf & H)]; [by left|right]); exists e;
    (split; [by apply find_entry_Some_iff|done]).
Qed.

Lemma revert_to_version_raises tr hid w :
  reaches_entry_without_id (history tr) hid →
  revert_to_version tr hid w = Raise (KeyError "id").
Proof.
  intros H.
  assert (find_entry (history tr) hid = Raise (KeyError "id")) as Hf
    by by apply find_entry_Raise_iff.
  unfold revert_to_version. unfold mbind, M_bind, lift. by rewrite Hf.
Qed.

Lemma revert_route_raises config data w tr cur x :
  HISTORY_TRACKER config = Some tr → MAIN_DF config = Some cur →
  truthy (default PNone (data !! "id")) = true →
  revert_to_version tr (default PNone (data !! "id")) w = Raise x →
  revert_to_history_version uuid_str now_iso config data w = Raise x.
Proof.
  unfold revert_to_history_version. intros -> -> Hid Hrev. rewrite Hid. simpl.
  unfold mbind, M_bind at 1. by rewrite Hrev.
Qed.

(** On a store whose objects exist, the scan ends in one of three ways. *)
Lemma entry_cases tr w hid :
  (∀ sid a, snapshots tr !! sid = Some a → is_Some (heap w !! a)) →
  (∃ T, entry_resolves tr w hid T) ∨ entry_unresolved tr hid ∨
  reaches_entry_without_id (history tr) hid.
Proof.
  intros Halive.
  destruct (find_entry (history tr) hid) as [[e|]|x] eqn:Hf.
  - apply find_entry_Some_iff in Hf.
    destruct (e !! "snapshot_id") as [sid|] eqn:Hs.
    + destruct (get_snapshot tr sid) as [a|] eqn:Ha.
      * destruct (Halive sid a Ha) as [T HT]. left. by exists T, e, sid, a.
      * right. left. right. exists e. split; [done|]. right. by exists sid.
    + right. left. right. exists e. split; [done|]. by left.
  - right. left. left. by apply find_entry_None_iff.
  - right. right. by apply find_entry_Raise_iff in Hf as [_ ?].
Qed.

(** C1, as amended: the handler of [POST /history/revert] answers 404 when
    no tracker or no table is configured, whatever the body; otherwise it
    raises [AttributeError] on a JSON body that is not an object and answers
    400 when the object carries no usable id.  Given an id whose first entry
    names a snapshot of the store, it installs a new object holding the
    content of that snapshot as the current table (a copy: the object did
    not exist before, and no existing object is changed) and answers 200
    with a body made of a status and a message only.  Given an id that does
    not resolve (every entry has an id and none matches, or the first match
    has no [snapshot_id], or the store does not hold it) it answers 404 and
    changes nothing.  When the scan reaches an entry without ['id'] before
    any match, it raises [KeyError] instead.  These cases are all there
    are. *)
Theorem revert_route_result config request w :
  (HISTORY_TRACKER config = None ∨ MAIN_DF config = None →
   history_revert_request uuid_str now_iso config request w =
   Ok ((jsonify_error "History or data not available." 404, config), w)) ∧
  (∀ tr cur,
     HISTORY_TRACKER config = Some tr → MAIN_DF config = Some cur →
     (request = JsonNotObject →
      history_revert_request uuid_str now_iso config request w =
      Raise (AttributeError "get")) ∧
     (∀ data, request = JsonObject data →
        (truthy (default PNone (data !! "id")) = false →
         history_revert_request uuid_str now_iso config request w =
         Ok ((jsonify_error "History ID is required." 400, config), w)) ∧
        (truthy (default PNone (data !! "id")) = true →
         ∀ T, entry_resolves tr w (default PNone (data !! "id")) T →
           ∃ resp tr1 w2 new_df,
             history_revert_request uuid_str now_iso config request w =
               Ok ((resp, {| MAIN_DF := Some new_df;
                             HISTORY_TRACKER := Some tr1 |}), w2) ∧
             status_code resp = 200 ∧
             body resp =
               {[ "status" := "success";
                  "message" :=
                    "Successfully reverted to the selected state." ]} ∧
             content w new_df = None ∧
             content w2 new_df = Some T ∧
             extends w w2) ∧
        (truthy (default PNone (data !! "id")) = true →
         entry_unresolved tr (default PNone (data !! "id")) →
         history_revert_request uuid_str now_iso config request w =
         Ok ((jsonify_error "History snapshot not found." 404, config), w)) ∧
        (truthy (default PNone (data !! "id")) = true →
         reaches_entry_without_id (history tr)
           (default PNone (data !! "id")) →
         history_revert_request uuid_str now_iso config request w =
         Raise (KeyError "id")) ∧
        ((∀ sid a, snapshots tr !! sid = Some a → is_Some (heap w !! a)) →
         (∃ T, entry_resolves tr w (default PNone (data !! "id")) T) ∨
         entry_unresolved tr (default PNone (data !! "id")) ∨
         reaches_entry_without_id (history tr)
           (default PNone (data !! "id"))))).
Proof.
  split.
  { intros H. destruct request as [data|]; simpl.
    - by apply revert_route_unavailable.
    - destruct H as [-> | ->]; [done|]. by destruct (HISTORY_TRACKER config). }
  intros tr cur Htr Hdf. split; [intros ->; simpl; by rewrite Htr, Hdf|].
  intros data ->. simpl. split; [by eapply revert_route_no_id|].
  split; [|split; [|split]].
  - intros Hid T HT%entry_resolves_iff.
    destruct (revert_route_resolves uuid_str now_iso _ _ _ _ _ _
                Htr Hdf Hid HT) as (tr1 & w2 & e & Hr & Hc & _).
    eexists _, tr1, w2, (length (heap w)). split; [exact Hr|].
    split; [done|]. split; [done|]. split; [by apply lookup_ge_None|].
    split; [done|].
    destruct (revert_route_success_inv _ _ _ _ _ _ _ _ Hr eq_refl)
      as (tr0 & cur0 & c & w1 & id & tr1' & _ & _ & _ & Hrev & Hlog & _).
    eapply extends_trans; [by eapply revert_to_version_extends|].
    by eapply log_change_extends.
  - intros Hid Hun%entry_unresolved_iff.
    eapply revert_route_not_found; [done..|]. by apply id_unresolved_revert.
  - intros Hid Hreach. eapply revert_route_raises; [done..|].
    by apply revert_to_version_raises.
  - apply entry_cases.
Qed.

(** C8, as amended: [revert_to_version] returns [None] exactly when every
    entry of the ledger has an id and none has the id asked for, or the
    first entry with that id carries no [snapshot_id], or the store does not
    hold the [snapshot_id] it carries; it then leaves the world as it was,
    and the handler answers 404 without touching the configuration, so
    neither the ledger nor the current table changes.  When the scan reaches
    an entry without ['id'] before any match, [revert_to_version] raises
    [KeyError] and signals nothing. *)
Theorem revert_not_found_iff tr hid w :
  ((∃ w', revert_to_version tr hid w = Ok (None, w')) ↔
   entry_unresolved tr hid) ∧
  (∀ w', revert_to_version tr hid w = Ok (None, w') → w' = w) ∧
  (reaches_entry_without_id (history tr) hid →
   revert_to_version tr hid w = Raise (KeyError "id")) ∧
  (∀ config data cur,
     HISTORY_TRACKER config = Some tr → MAIN_DF config = Some cur →
     default PNone (data !! "id") = hid → truthy hid = true →
     entry_unresolved tr hid →
     history_revert_request uuid_str now_iso config (JsonObject data) w =
     Ok ((jsonify_error "History snapshot not found." 404, config), w)).
Proof.
  split; [split|split; [|split]].
  - intros [w' H]. apply entry_unresolved_iff.
    by apply revert_to_version_inv in H as [_ H].
  - intros H%entry_unresolved_iff. exists w. by apply id_unresolved_revert.
  - intros w' H. by apply revert_to_version_inv in H as [-> _].
  - apply revert_to_version_raises.
  - intros config data cur Htr Hdf <- Hid Hun%entry_unresolved_iff. simpl.
    eapply revert_route_not_found; [done..|]. by apply id_unresolved_revert.
Qed.

(** X3: in every state a fresh tracker reaches without [import_history],
    [revert_to_version] does not raise: it returns a fresh copy of the
    snapshot the id resolves to, or [None].  The handler then returns a
    response to every request whose JSON body is an object; on a body that
    is not an object it answers 404 when no table is loaded and raises
    [AttributeError] when one is. *)
Theorem revert_returns_reachable tr w hid :
  reachable uuid_str now_iso false tr w →
  ((∃ T, entry_resolves tr w hid T ∧
         revert_to_version tr hid w =
         Ok (Some (length (heap w)), with_heap (heap w ++ [T]) w)) ∨
   revert_to_version tr hid w = Ok (None, w)) ∧
  (∀ config data,
     HISTORY_TRACKER config = Some tr →
     ∃ resp config' w',
       history_revert_request uuid_str now_iso config (JsonObject data) w
         = Ok ((resp, config'), w')) ∧
  (∀ config,
     HISTORY_TRACKER config = Some tr →
     (MAIN_DF config = None →
      history_revert_request uuid_str now_iso config JsonNotObject w =
      Ok ((jsonify_error "History or data not available." 404, config), w)) ∧
     (∀ cur, MAIN_DF config = Some cur →
        history_revert_request uuid_str now_iso config JsonNotObject w =
        Raise (AttributeError "get"))).
Proof.
  intros (_ & _ & Hwf & _)%tracker_invariant_reachable. split; [|split].
  - destruct (resolves_or_unresolved tr w hid Hwf) as [[T HT]|Hun].
    + left. exists T. split; [by apply entry_resolves_iff|].
      destruct HT as (e & sid & a & ? & ? & ? & ?).
      by eapply revert_to_version_found.
    + right. by apply id_unresolved_revert.
  - intros config data Htr. simpl.
    destruct (MAIN_DF config) as [cur|] eqn:Hdf.
    2:{ eexists _, _, _. apply revert_route_unavailable. by right. }
    destruct (truthy (default PNone (data !! "id"))) eqn:Hid.
    2:{ eexists _, _, _. by eapply revert_route_no_id. }
    destruct (resolves_or_unresolved tr w (default PNone (data !! "id")) Hwf)
      as [[T HT]|Hun].
    + destruct (revert_route_resolves uuid_str now_iso _ _ _ _ _ _
                  Htr Hdf Hid HT) as (tr1 & w2 & e & Hr & _).
      by eexists _, _, _.
    + eexists _, _, _. eapply revert_route_not_found; [done..|].
      by apply id_unresolved_revert.
  - intros config Htr. simpl. rewrite Htr.
    split; [by intros ->|]. by intros cur ->.
Qed.

End Further.

(** * Formatting a phone number *)

Section FormattingProperties.

Variable is_decimal : N → bool.

(** What the table says of the four characters the format is made of. *)
Hypothesis decimal_1 : is_decimal ord_1 = true.
Hypothesis lparen_not_decimal : is_decimal ord_lparen = false.
Hypothesis rparen_not_decimal : is_decimal ord_rparen = false.
Hypothesis hyphen_not_decimal : is_decimal ord_hyphen = false.

Abbreviation strip := (strip_non_digits is_decimal).
Abbreviation format := (_format_single_phone_number is_decimal).

Lemma strip_all_decimal s : forallb is_decimal (strip s) = true.
Proof.
  induction s as [|c s IH]; [done|]. simpl.
  destruct (is_decimal c) eqn:Hc; [|done]. simpl. by rewrite Hc, IH.
Qed.

Lemma pystr_length_10 (s : pystr) :
  length s = 10 → ∃ a b c d e f g h i j, s = [a; b; c; d; e; f; g; h; i; j].
Proof.
  intros H. do 10 (destruct s as [|? s]; [discriminate H|]).
  destruct s; [|discriminate H]. by eexists _, _, _, _, _, _, _, _, _, _.
Qed.

Lemma pystr_length_11_startswith (s : pystr) :
  length s = 11 → startswith s [ord_1] = true →
  ∃ r, s = ord_1 :: r ∧ length r = 10.
Proof.
  intros H Hp. destruct s as [|c r]; [discriminate H|].
  cbn [startswith] in Hp.
  apply andb_true_iff in Hp as [Hc%N.eqb_eq _]. subst c.
  exists r. split; [done|]. by injection H.
Qed.

(** The result on a recognised number, from its last ten digits. *)
Lemma format_ten_digits a b c d e f g h i j group0 :
  strip group0 = [a; b; c; d; e; f; g; h; i; j] ∨
  strip group0 = ord_1 :: [a; b; c; d; e; f; g; h; i; j] →
  format group0 =
  [ord_1; ord_lparen; a; b; c; ord_rparen; d; e; f; ord_hyphen; g; h; i; j].
Proof.
  intros [H|H]; unfold _format_single_phone_number; by rewrite H.
Qed.

Lemma recognised_national group0 :
  recognised is_decimal group0 = true →
  ∃ a b c d e f g h i j,
    forallb is_decimal [a; b; c; d; e; f; g; h; i; j] = true ∧
    (strip group0 = [a; b; c; d; e; f; g; h; i; j] ∨
     strip group0 = ord_1 :: [a; b; c; d; e; f; g; h; i; j]).
Proof.
  unfold recognised. pose proof (strip_all_decimal group0) as Hd.
  intros [Hl|[Hl Hp]%andb_true_iff]%orb_true_iff.
  - apply Nat.eqb_eq, pystr_length_10 in Hl
      as (a & b & c & d & e & f & g & h & i & j & Heq).
    exists a, b, c, d, e, f, g, h, i, j. rewrite Heq in Hd. by split; [|left].
  - apply Nat.eqb_eq in Hl.
    destruct (pystr_length_11_startswith _ Hl Hp) as (r & Heq & Hr).
    apply pystr_length_10 in Hr
      as (a & b & c & d & e & f & g & h & i & j & ->).
    exists a, b, c, d, e, f, g, h, i, j. rewrite Heq in Hd.
    split; [|by right]. by apply andb_true_iff in Hd as [_ ?].
Qed.

Lemma strip_formatted a b c d e f g h i j :
  forallb is_decimal [a; b; c; d; e; f; g; h; i; j] = true →
  strip [ord_1; ord_lparen; a; b; c; ord_rparen; d; e; f; ord_hyphen;
         g; h; i; j]
  = ord_1 :: [a; b; c; d; e; f; g; h; i; j].
Proof.
  intros Hd. simpl in Hd. repeat (apply andb_true_iff in Hd as [? Hd]).
  simpl. rewrite decimal_1, lparen_not_decimal, rparen_not_decimal,
    hyphen_not_decimal.
  by repeat match goal with H : is_decimal _ = true |- _ =>
              rewrite H; clear H end.
Qed.

(** X17: on a text with ten digits, or eleven digits of which the first is
    ['1'], [_format_single_phone_number] returns [1(ddd)ddd-dddd] on the last
    ten digits [national]: fourteen characters, of which the digits are ['1']
    followed by [national].  Digits are what [\d] matches, in any script. *)
Theorem format_recognised_number group0 :
  recognised is_decimal group0 = true →
  ∃ national,
    length national = 10 ∧ forallb is_decimal national = true ∧
    (strip group0 = national ∨ strip group0 = ord_1 :: national) ∧
    format group0 =
      [ord_1; ord_lparen] ++ slice 0 3 national ++ [ord_rparen] ++
      slice 3 6 national ++ [ord_hyphen] ++ slice 6 10 national ∧
    length (format group0) = 14 ∧
    strip (format group0) = ord_1 :: national.
Proof.
  intros (a & b & c & d & e & f & g & h & i & j & Hd & Hs)%recognised_national.
  exists [a; b; c; d; e; f; g; h; i; j].
  split; [done|]. split; [done|]. split; [done|].
  rewrite (format_ten_digits _ _ _ _ _ _ _ _ _ _ _ Hs).
  split; [done|]. split; [done|]. by apply strip_formatted.
Qed.

(** X18: [_format_single_phone_number] is idempotent: formatting a formatted
    number changes nothing; and a text that is not recognised is returned as
    it is. *)
Theorem format_idempotent group0 :
  format (format group0) = format group0 ∧
  (recognised is_decimal group0 = false → format group0 = group0).
Proof.
  assert (recognised is_decimal group0 = false → format group0 = group0)
    as Hun.
  { unfold recognised, _format_single_phone_number.
    intros [H1 H2]%orb_false_iff. by rewrite H1, H2. }
  split; [|done]. destruct (recognised is_decimal group0) eqn:Hr.
  - destruct (recognised_national group0 Hr)
      as (a & b & c & d & e & f & g & h & i & j & Hd & Hs).
    rewrite (format_ten_digits _ _ _ _ _ _ _ _ _ _ _ Hs).
    apply format_ten_digits. right. by apply strip_formatted.
  - by rewrite !(Hun eq_refl).
Qed.

(** X19: the result depends on the number only: two texts whose digits are
    the same ten digits, with or without a leading ['1'], are formatted
    alike. *)
Theorem format_same_number group1 group2 national :
  length national = 10 →
  strip group1 = national ∨ strip group1 = ord_1 :: national →
  strip group2 = national ∨ strip group2 = ord_1 :: national →
  format group1 = format group2.
Proof.
  intros (a & b & c & d & e & f & g & h & i & j & ->)%pystr_length_10 H1 H2.
  by rewrite (format_ten_digits _ _ _ _ _ _ _ _ _ _ _ H1),
             (format_ten_digits _ _ _ _ _ _ _ _ _ _ _ H2).
Qed.

End FormattingProperties.

(** * The further properties at work *)

Lemma entry_ids_distinct_reachable_witness :
  NoDup (entry_ids (get_history sample_logged.1)) ∧
  length (entry_ids (get_history sample_logged.1))
    = length (get_history sample_logged.1).
Proof.
  apply (entry_ids_distinct_reachable sample_uuid sample_now sample_uuid_fresh
           sample_logged.1 sample_logged.2 (sample_logged_reachable false)).
Defined.

Lemma store_matches_ledger_reachable_witness :
  store_matches_ledger sample_logged.1 ∧
  size (snapshots sample_logged.1)
    = length (snapshot_ids (get_history sample_logged.1)).
Proof.
  apply (store_matches_ledger_reachable sample_uuid sample_now
           sample_uuid_fresh sample_logged.1 sample_logged.2
           (sample_logged_reachable false)).
Defined.

Lemma revert_succeeds_iff_witness :
  (∃ c w', revert_to_version sample_logged.1 (PStr "u0") sample_logged.2
             = Ok (Some c, w')) ↔
  (∃ e, e ∈ get_history sample_logged.1 ∧ e !! "id" = Some "u0" ∧
        is_Some (e !! "snapshot_id")).
Proof.
  apply (revert_succeeds_iff sample_uuid sample_now sample_uuid_fresh
           sample_logged.1 sample_logged.2 "u0"
           (sample_logged_reachable false)).
Defined.

Lemma log_change_stores_fresh_copy_witness :
  ∃ e sid c,
    last (get_history sample_logged.1) = Some e ∧
    e !! "id" = Some (sample_uuid 0) ∧ e !! "snapshot_id" = Some sid ∧
    get_snapshot sample_logged.1 sid = Some c ∧
    content sample_world c = None ∧ c ≠ 0 ∧
    content sample_logged.2 c = Some table_2x2 ∧
    content sample_logged.2 0 = Some table_2x2 ∧
    ∀ df, content (mutate 0 df sample_logged.2) c = Some table_2x2.
Proof.
  apply (log_change_stores_fresh_copy sample_uuid sample_now init
           "Session Load" "Loaded session file 'a.json'" 0 sample_world
           table_2x2 (sample_uuid 0) sample_logged.1 sample_logged.2);
    reflexivity.
Defined.

Lemma sample_logged_store_ids_drawn :
  store_ids_drawn sample_uuid sample_logged.1 sample_logged.2.
Proof.
  by destruct (tracker_invariant_reachable sample_uuid sample_now
                 sample_uuid_fresh _ _ (sample_logged_reachable false))
    as (_ & ? & _).
Qed.

Lemma log_change_keeps_other_reverts_witness :
  ∃ id tr' w',
    log_change sample_uuid sample_now sample_logged.1 "Note" "no table" None
      sample_logged.2 = Ok ((id, tr'), w') ∧
    id_resolves tr' w' (PStr "u0") table_2x2.
Proof.
  eexists _, _, _. split; [apply log_change_without_table|].
  eapply (log_change_keeps_other_reverts sample_uuid sample_now
            sample_uuid_fresh sample_logged.1 "Note" "no table" None
            sample_logged.2).
  - apply sample_logged_store_ids_drawn.
  - eexists _, (sample_uuid 1), 1. repeat split; reflexivity.
  - apply log_change_without_table.
Defined.


Lemma history_listing_after_log_change_witness :
  ∃ e,
    history_routes.history_items
      (history_routes.get_history
         {| MAIN_DF := None; HISTORY_TRACKER := Some sample_logged.1 |})
    = e :: history_routes.history_items
             (history_routes.get_history
                {| MAIN_DF := None; HISTORY_TRACKER := Some init |}) ∧
    e !! "id" = Some (sample_uuid 0) ∧ e !! "action" = Some "Session Load" ∧
    e !! "description" = Some "Loaded session file 'a.json'".
Proof.
  apply (history_listing_after_log_change sample_uuid sample_now
           {| MAIN_DF := None; HISTORY_TRACKER := Some init |} init
           "Session Load" "Loaded session file 'a.json'" (Some 0) sample_world
           (sample_uuid 0) sample_logged.1 sample_logged.2); reflexivity.
Defined.

Lemma history_listing_after_revert_witness :
  ∃ e,
    history_routes.history_items
      (history_routes.get_history sample_reverted.1.2)
    = e :: history_routes.history_items
             (history_routes.get_history sample_config) ∧
    e !! "action" = Some "Revert" ∧ is_Some (e !! "snapshot_id").
Proof.
  apply (history_listing_after_revert sample_uuid sample_now sample_config
           {[ "id" := PStr "u0" ]} sample_logged.2 sample_reverted.1.1
           sample_reverted.1.2 sample_reverted.2); reflexivity.
Defined.

Lemma sample_loaded_eq :
  session_routes.load_session sample_uuid sample_now sample_config
    (Some "b.json") table_1x2 sample_logged.2 = Ok sample_loaded.
Proof. reflexivity. Qed.

Lemma load_edit_revert_restores_witness :
  ∃ e id,
    get_history (default init (HISTORY_TRACKER sample_loaded.1.1.2)) = [e] ∧
    e !! "id" = Some id ∧
    ∃ resp2 tr3 w3 new_df,
      revert_to_history_version sample_uuid sample_now
        {| MAIN_DF := MAIN_DF sample_loaded.1.1.2;
           HISTORY_TRACKER := HISTORY_TRACKER sample_loaded.1.1.2 |}
        {[ "id" := PStr id ]} (mutate 2 table_2x2 sample_loaded.2)
      = Ok ((resp2, {| MAIN_DF := Some new_df;
                       HISTORY_TRACKER := Some tr3 |}), w3) ∧
      status_code resp2 = 200 ∧ content w3 new_df = Some table_1x2.
Proof.
  apply (load_edit_revert_restores sample_uuid sample_now sample_uuid_fresh
           sample_uuid_nonempty sample_config (Some "b.json") table_1x2
           sample_logged.2 sample_logged.1 sample_loaded.1.1.1
           sample_loaded.1.1.2 sample_loaded.1.2 sample_loaded.2
           (default init (HISTORY_TRACKER sample_loaded.1.1.2))
           (default init (HISTORY_TRACKER sample_loaded.1.1.2))
           (mutate 2 table_2x2 sample_loaded.2) 2).
  - reflexivity.
  - reflexivity.
  - reflexivity.
  - apply rtc_once, later_mutate. intros sid.
    assert (snapshots (default init (HISTORY_TRACKER sample_loaded.1.1.2))
            = {[ sample_uuid 3 := 3 ]}) as -> by reflexivity.
    by intros [_ [=]]%lookup_singleton_Some.
Defined.

(** The amended C1 at work: the sample revert answers 200 with a status and
    a message, and the table it installs is a new object with the two rows
    and two columns of the snapshot. *)
Lemma revert_route_result_witness :
  ∃ resp tr1 w2 new_df,
    history_revert_request sample_uuid sample_now sample_config
      (JsonObject {[ "id" := PStr "u0" ]}) sample_logged.2
      = Ok ((resp, {| MAIN_DF := Some new_df;
                      HISTORY_TRACKER := Some tr1 |}), w2) ∧
    status_code resp = 200 ∧
    body resp =
      {[ "status" := "success";
         "message" := "Successfully reverted to the selected state." ]} ∧
    content sample_logged.2 new_df = None ∧
    content w2 new_df = Some table_2x2 ∧
    extends sample_logged.2 w2.
Proof.
  refine (proj1 (proj2 (proj2 (proj2 (revert_route_result sample_uuid
    sample_now sample_config (JsonObject {[ "id" := PStr "u0" ]})
    sample_logged.2) sample_logged.1 0 eq_refl eq_refl)
    {[ "id" := PStr "u0" ]} eq_refl)) eq_refl table_2x2 _).
  apply entry_resolves_iff.
  exists (<["snapshot_id" := sample_uuid 1]>
            {[ "id" := sample_uuid 0; "timestamp" := sample_now 0;
               "action" := "Session Load";
               "description" := "Loaded session file 'a.json'" ]}),
    (sample_uuid 1), 1.
  repeat split; reflexivity.
Defined.

Lemma revert_not_found_iff_witness :
  history_revert_request sample_uuid sample_now sample_config
    (JsonObject {[ "id" := PStr "nonexistent" ]}) sample_logged.2
  = Ok ((jsonify_error "History snapshot not found." 404, sample_config),
        sample_logged.2).
Proof.
  apply (proj2 (proj2 (proj2 (revert_not_found_iff sample_uuid sample_now
           sample_logged.1 (PStr "nonexistent") sample_logged.2)))
           sample_config {[ "id" := PStr "nonexistent" ]} 0);
    try reflexivity.
  apply entry_unresolved_iff. left. reflexivity.
Defined.

Lemma revert_returns_reachable_witness :
  (∃ T, entry_resolves sample_logged.1 sample_logged.2 (PStr "u0") T ∧
        revert_to_version sample_logged.1 (PStr "u0") sample_logged.2 =
        Ok (Some (length (heap sample_logged.2)),
            with_heap (heap sample_logged.2 ++ [T]) sample_logged.2)) ∨
  revert_to_version sample_logged.1 (PStr "u0") sample_logged.2
    = Ok (None, sample_logged.2).
Proof.
  apply (revert_returns_reachable sample_uuid sample_now sample_uuid_fresh
           sample_logged.1 sample_logged.2 (PStr "u0")
           (sample_logged_reachable false)).
Defined.

(** ['(919) 223-0874'], and ['1234567890'] followed by the Arabic-Indic
    digit zero. *)
Lemma format_recognised_number_witness :
  _format_single_phone_number sample_is_decimal
    [40; 57; 49; 57; 41; 32; 50; 50; 51; 45; 48; 56; 55; 52]%N
  = [49; 40; 57; 49; 57; 41; 50; 50; 51; 45; 48; 56; 55; 52]%N ∧
  _format_single_phone_number sample_is_decimal
    [49; 50; 51; 52; 53; 54; 55; 56; 57; 48; 1632]%N
  = [49; 40; 50; 51; 52; 41; 53; 54; 55; 45; 56; 57; 48; 1632]%N.
Proof.
  split.
  - destruct (format_recognised_number sample_is_decimal eq_refl eq_refl
                eq_refl eq_refl
                [40; 57; 49; 57; 41; 32; 50; 50; 51; 45; 48; 56; 55; 52]%N
                eq_refl) as (national & _ & _ & _ & _ & _ & _).
    reflexivity.
  - destruct (format_recognised_number sample_is_decimal eq_refl eq_refl
                eq_refl eq_refl
                [49; 50; 51; 52; 53; 54; 55; 56; 57; 48; 1632]%N
                eq_refl) as (national & _ & _ & _ & _ & _ & _).
    reflexivity.
Defined.

Lemma format_idempotent_witness :
  _format_single_phone_number sample_is_decimal
    (_format_single_phone_number sample_is_decimal
       [49; 50; 51; 52; 53; 54; 55; 56; 57; 48; 1632]%N)
  = _format_single_phone_number sample_is_decimal
      [49; 50; 51; 52; 53; 54; 55; 56; 57; 48; 1632]%N.
Proof.
  apply (format_idempotent sample_is_decimal eq_refl eq_refl eq_refl eq_refl
           [49; 50; 51; 52; 53; 54; 55; 56; 57; 48; 1632]%N).
Defined.

(** ['216-402-9971'] and ['+1 (216) 402.9971']. *)
Lemma format_same_number_witness :
  _format_single_phone_number sample_is_decimal
    [50; 49; 54; 45; 52; 48; 50; 45; 57; 57; 55; 49]%N
  = _format_single_phone_number sample_is_decimal
      [43; 49; 32; 40; 50; 49; 54; 41; 32; 52; 48; 50; 46; 57; 57; 55; 49]%N.
Proof.
  apply (format_same_number sample_is_decimal
           [50; 49; 54; 45; 52; 48; 50; 45; 57; 57; 55; 49]%N
           [43; 49; 32; 40; 50; 49; 54; 41; 32; 52; 48; 50; 46; 57; 57; 55; 49]%N
           [50; 49; 54; 52; 48; 50; 57; 57; 55; 49]%N).
  - reflexivity.
  - left. reflexivity.
  - right. reflexivity.
Defined.
